(** * count_event_multiplicity: cluster sizes of thresholded TIFF images

    A shallow embedding of [count_event_multiplicity.py].  The script reads
    grayscale images, thresholds them, labels the connected foreground
    regions, lists the region sizes ("multiplicities") and reports their
    mean and standard error.

    The script's own three functions are translated statement by
    statement.  The library calls they make (numpy, scikit-image, glob,
    tifffile) are given reference models of their documented behaviour:
    - an [ndarray] is a shape together with its C-order buffer;
    - [label] numbers the connected components in raster order of their
      first pixel, [regionprops] lists the regions by increasing label;
    - numpy's float64 numbers are IEEE binary64 numbers (Rocq's primitive
      floats), added up in the order numpy adds them; the lists of
      multiplicities hold integers of the [int64] range;
    - the file system is the pair of functions [glob] and [imread]. *)

From Stdlib Require Import ZArith List Bool Arith Lia String Ascii.
From Stdlib Require Import DecimalString.
From Stdlib Require Import PrimInt63 PrimFloat.
Import ListNotations.

Set Warnings "-inexact-float".

Local Open Scope string_scope.
Local Open Scope list_scope.
Local Open Scope nat_scope.

(** ** Exceptions and the error monad *)

Inductive exception : Type :=
| ValueError (msg : string)
| OSError (msg : string).

Inductive result (A : Type) : Type :=
| Ok (a : A)
| Raise (e : exception).
Arguments Ok {A} a.
Arguments Raise {A} e.

Definition bind {A B : Type} (m : result A) (k : A -> result B) : result B :=
  match m with
  | Ok a => k a
  | Raise e => Raise e
  end.

Notation "x <- m ;; k" := (bind m (fun x => k))
  (at level 61, m at next level, right associativity).

(** A list comprehension whose body may raise: the first exception aborts
    the whole comprehension. *)
Fixpoint comprehension {A B : Type} (f : A -> result B) (l : list A)
  : result (list B) :=
  match l with
  | [] => Ok []
  | a :: l' => b <- f a ;; bs <- comprehension f l' ;; Ok (b :: bs)
  end.

(** ** numpy arrays *)

Record ndarray (A : Type) : Type := mk_ndarray {
  shape : list nat;
  data : list A
}.
Arguments mk_ndarray {A} shape data.
Arguments shape {A} n.
Arguments data {A} n.

Definition ndim {A : Type} (a : ndarray A) : nat := List.length (shape a).

Definition size_of_shape (s : list nat) : nat := fold_right Nat.mul 1 s.

(** The buffer of an array holds one item per cell. *)
Definition well_formed {A : Type} (a : ndarray A) : Prop :=
  List.length (data a) = size_of_shape (shape a).

(** [image >= threshold_value], elementwise. *)
Definition ge_scalar (image : ndarray Z) (threshold_value : Z) : ndarray bool :=
  mk_ndarray (shape image) (map (fun v => Z.geb v threshold_value) (data image)).

(** [repr] of a shape tuple: [()], [(5,)], [(5, 100, 100)]. *)
Definition str_nat (n : nat) : string := NilZero.string_of_uint (Nat.to_uint n).

Definition repr_shape (s : list nat) : string :=
  match s with
  | [] => "()"
  | [n] => ("(" ++ str_nat n ++ ",)")%string
  | _ => ("(" ++ String.concat ", " (map str_nat s) ++ ")")%string
  end.

(** ** skimage.measure.label on a 2D boolean image *)

Definition pixel : Type := (Z * Z)%type.

Definition in_bounds (h w : nat) (p : pixel) : bool :=
  ((0 <=? fst p)%Z && (fst p <? Z.of_nat h)%Z
   && (0 <=? snd p)%Z && (snd p <? Z.of_nat w)%Z)%bool.

(** Position of pixel [(r, c)] in the C-order buffer of an image of width [w]. *)
Definition offset (w : nat) (p : pixel) : nat :=
  Z.to_nat (fst p * Z.of_nat w + snd p).

(** Pixel stored at position [i] of the buffer. *)
Definition pixel_at (w : nat) (i : nat) : pixel :=
  (Z.of_nat i / Z.of_nat w, Z.of_nat i mod Z.of_nat w)%Z.

(** The eight displacements to a pixel's surrounding pixels. *)
Definition displacements : list (Z * Z) :=
  [(-1, -1); (-1, 0); (-1, 1); (0, -1); (0, 1); (1, -1); (1, 0); (1, 1)]%Z.

(** [connectivity] is the largest number of orthogonal hops that still makes
    two pixels neighbours: 1 keeps the four edge neighbours, 2 adds the
    four corner neighbours. *)
Definition hops (d : Z * Z) : nat := Z.abs_nat (fst d) + Z.abs_nat (snd d).

Definition neighbours (connectivity : nat) (p : pixel) : list pixel :=
  map (fun d => (fst p + fst d, snd p + snd d)%Z)
      (filter (fun d => hops d <=? connectivity) displacements).

Fixpoint update {A : Type} (l : list A) (i : nat) (v : A) : list A :=
  match l, i with
  | [], _ => []
  | _ :: l', O => v :: l'
  | x :: l', S i' => x :: update l' i' v
  end.

(** A foreground pixel that has no label yet. *)
Definition unlabelled (h w : nat) (mask : list bool) (lab : list nat)
  (p : pixel) : bool :=
  (in_bounds h w p && nth (offset w p) mask false
   && (nth (offset w p) lab 0 =? 0))%bool.

(** Give label [k] to every foreground pixel reachable from the work list. *)
Fixpoint flood (fuel : nat) (h w : nat) (connectivity : nat) (mask : list bool)
  (k : nat) (work : list pixel) (lab : list nat) : list nat :=
  match fuel with
  | O => lab
  | S fuel' =>
      match work with
      | [] => lab
      | p :: rest =>
          if unlabelled h w mask lab p
          then flood fuel' h w connectivity mask k
                 (neighbours connectivity p ++ rest) (update lab (offset w p) k)
          else flood fuel' h w connectivity mask k rest lab
      end
  end.

Definition flood_fuel (h w : nat) : nat := 9 * (h * w) + 1.

(** Raster scan: the first pixel of every new component opens the next label. *)
Fixpoint scan (h w : nat) (connectivity : nat) (mask : list bool)
  (positions : list nat) (next : nat) (lab : list nat) : nat * list nat :=
  match positions with
  | [] => (next, lab)
  | i :: positions' =>
      if (nth i mask false && (nth i lab 0 =? 0))%bool
      then scan h w connectivity mask positions' (S next)
             (flood (flood_fuel h w) h w connectivity mask (S next)
                [pixel_at w i] lab)
      else scan h w connectivity mask positions' next lab
  end.

Definition label_2d (h w : nat) (connectivity : nat) (mask : list bool)
  : list nat :=
  snd (scan h w connectivity mask (seq 0 (h * w)) 0 (repeat 0 (h * w))).

(** [label(input, connectivity=...)]: background pixels get label 0.  Only
    two-dimensional input is modelled, the one rank [count_multiplicity]
    lets through. *)
Definition label (input : ndarray bool) (connectivity : nat) : ndarray nat :=
  match shape input with
  | [h; w] => mk_ndarray (shape input) (label_2d h w connectivity (data input))
  | _ => mk_ndarray (shape input) (map (fun _ => 0) (data input))
  end.

(** ** skimage.measure.regionprops *)

Record RegionProperties : Type := mk_region {
  region_label : nat;
  area : Z
}.

Definition pixels_with (label_image : ndarray nat) (k : nat) : nat :=
  count_occ Nat.eq_dec (data label_image) k.

(** [label_image.max()]: the maximum of an array without items is an
    error. *)
Definition np_max (a : ndarray nat) : result nat :=
  match data a with
  | [] => Raise (ValueError
            "zero-size array to reduction operation maximum which has no identity")
  | _ :: _ => Ok (list_max (data a))
  end.

(** The objects are looked up for the labels 1, 2, ... up to the largest
    label of the image, which fails on an image without pixels.  There is
    one region per label, in that order; a label that no pixel carries has
    no region. *)
Definition regionprops (label_image : ndarray nat)
  : result (list RegionProperties) :=
  max_label <- np_max label_image ;;
  Ok (flat_map
        (fun k =>
           if pixels_with label_image k =? 0 then []
           else [mk_region k (Z.of_nat (pixels_with label_image k))])
        (seq 1 max_label)).

(** ** Paths and console output *)

(** Python's truth value of a list. *)
Definition truthy {A : Type} (l : list A) : bool :=
  match l with
  | [] => false
  | _ :: _ => true
  end.

Definition last_char (a : string) : option ascii :=
  String.get (String.length a - 1) a.

(** [os.path.join] of two components on a POSIX system. *)
Definition os_path_join (a b : string) : string :=
  if String.prefix "/" b then b
  else if (String.eqb a "" || match last_char a with
                              | Some c => Ascii.eqb c "/"
                              | None => false
                              end)%bool
       then (a ++ b)%string
       else (a ++ "/" ++ b)%string.

(** What a call leaves on standard output: the lines it printed. *)
Definition stdout : Type := list string.

(** ** numpy's float64 numbers and reductions *)


Fixpoint int_of_pos (p : positive) : int :=
  match p with
  | xH => 1%uint63
  | xO p' => PrimInt63.lsl (int_of_pos p') 1%uint63
  | xI p' => PrimInt63.lor (PrimInt63.lsl (int_of_pos p') 1%uint63) 1%uint63
  end.

Fixpoint scale2 (k : nat) (f : float) : float :=
  match k with
  | O => f
  | S k' => scale2 k' (PrimFloat.mul f PrimFloat.two)
  end.

(** The float64 nearest to a positive integer, ties to even: below 2^63 the
    machine conversion, above it the 53 leading bits rounded and scaled. *)
Definition float_of_pos (p : positive) : float :=
  let n := Z.log2 (Zpos p) in
  if (n <? 63)%Z then PrimFloat.of_uint63 (int_of_pos p)
  else
    let k := (n - 52)%Z in
    let m := Z.shiftr (Zpos p) k in
    let rest := Z.land (Zpos p) (2 ^ k - 1) in
    let half := (2 ^ (k - 1))%Z in
    let m' := if ((half <? rest)%Z || ((half =? rest)%Z && Z.odd m))%bool
              then (m + 1)%Z else m in
    scale2 (Z.to_nat k)
      (PrimFloat.of_uint63
         (match m' with Zpos q => int_of_pos q | _ => 0%uint63 end)).

(** Conversion of an integer to float64. *)
Definition float_of_int (z : Z) : float :=
  match z with
  | Z0 => PrimFloat.zero
  | Zpos p => float_of_pos p
  | Zneg p => PrimFloat.opp (float_of_pos p)
  end.

(** A Python number as the script handles them: a Python [int] or a
    [numpy.float64]. *)
Inductive number : Type :=
| PyInt (z : Z)
| NpFloat (x : float).

(** Adding the items one after the other to a running sum. *)
Fixpoint sum_from (acc : float) (l : list float) : float :=
  match l with
  | [] => acc
  | x :: l' => sum_from (PrimFloat.add acc x) l'
  end.

Definition lanes_add (r a : list float) : list float :=
  map (fun ra => PrimFloat.add (fst ra) (snd ra)) (combine r a).

(** The unrolled loop of numpy's sum: each round adds the next eight items
    to the eight accumulators. *)
Fixpoint unrolled (rounds : nat) (r l : list float)
  : list float * list float :=
  match rounds with
  | O => (r, l)
  | S rounds' => unrolled rounds' (lanes_add r (firstn 8 l)) (skipn 8 l)
  end.

(** The sum of a block of 8 to 128 items: eight accumulators, combined
    pairwise, then the items left over. *)
Definition block_sum (l : list float) : float :=
  let (r, rest) :=
    unrolled (List.length l / 8 - 1) (firstn 8 l) (skipn 8 l) in
  match r with
  | [r0; r1; r2; r3; r4; r5; r6; r7] =>
      sum_from
        (PrimFloat.add
           (PrimFloat.add (PrimFloat.add r0 r1) (PrimFloat.add r2 r3))
           (PrimFloat.add (PrimFloat.add r4 r5) (PrimFloat.add r6 r7)))
        rest
  | _ => PrimFloat.nan
  end.

(** numpy's pairwise summation: fewer than 8 items are added in order, up
    to 128 items as a block, more are split in two halves (the first a
    multiple of 8) that are summed on their own.  The recursion halves the
    list, so a fuel of the list's length is never used up. *)
Fixpoint pairwise_sum (fuel : nat) (l : list float) : float :=
  let n := List.length l in
  if n <? 8 then sum_from PrimFloat.neg_zero l
  else if n <=? 128 then block_sum l
  else
    match fuel with
    | O => block_sum l
    | S fuel' =>
        let n2 := n / 2 - (n / 2) mod 8 in
        PrimFloat.add (pairwise_sum fuel' (firstn n2 l))
                      (pairwise_sum fuel' (skipn n2 l))
    end.

(** [np.add.reduce] of a float64 array: the pairwise sum is added to the
    initial value 0. *)
Definition np_add_reduce (a : list float) : float :=
  PrimFloat.add PrimFloat.zero (pairwise_sum (List.length a) a).

(** Items that numpy converts at a time when the array has to be cast. *)
Definition bufsize : nat := 64 * 128.

Fixpoint buffered_sum (fuel : nat) (acc : float) (a : list Z) : float :=
  match a, fuel with
  | [], _ => acc
  | _, O => acc
  | _, S fuel' =>
      let buffer := map float_of_int (firstn bufsize a) in
      buffered_sum fuel'
        (PrimFloat.add acc (pairwise_sum (List.length buffer) buffer))
        (skipn bufsize a)
  end.

(** [np.add.reduce] of an int64 array with [dtype=float64]: the items are
    converted buffer by buffer, and each buffer's pairwise sum is added to
    the result. *)
Definition np_add_reduce_int64 (a : list Z) : float :=
  buffered_sum (List.length a) PrimFloat.zero a.

(** [np.mean(a)]: the float64 sum of the items divided by their number. *)
Definition np_mean (a : list Z) : float :=
  PrimFloat.div (np_add_reduce_int64 a)
                (float_of_int (Z.of_nat (List.length a))).

(** [np.var(a, ddof=...)]: the squared deviations from the mean are summed
    and divided by [max(len(a) - ddof, 0)]. *)
Definition np_var (a : list Z) (ddof : Z) : float :=
  let arrmean :=
    PrimFloat.div (np_add_reduce_int64 a)
                  (float_of_int (Z.of_nat (List.length a))) in
  let x :=
    map (fun v => PrimFloat.mul (PrimFloat.sub (float_of_int v) arrmean)
                                (PrimFloat.sub (float_of_int v) arrmean)) a in
  PrimFloat.div (np_add_reduce x)
                (float_of_int (Z.max (Z.of_nat (List.length a) - ddof) 0)).

(** [np.std(a, ddof=...)]. *)
Definition np_std (a : list Z) (ddof : Z) : float :=
  PrimFloat.sqrt (np_var a ddof).

(** [np.sqrt(n)] of a Python [int]. *)
Definition np_sqrt (n : nat) : float :=
  PrimFloat.sqrt (float_of_int (Z.of_nat n)).

(** ** The script *)

Section Script.

(** The file system the script runs on: what [tifffile.imread] returns for
    a path, and what [glob.glob] returns for a pattern. *)
Variable imread : string -> result (ndarray Z).
Variable glob : string -> list string.

Definition count_multiplicity (image_path : string) (threshold_value : Z)
  : result (list Z) :=
  image <- imread image_path ;;
  if negb (ndim image =? 2)
  then Raise (ValueError ("Expected a 2D grayscale image, but got shape "
                          ++ repr_shape (shape image))%string)
  else
    let binary_image := ge_scalar image threshold_value in
    let labeled_image := label binary_image 2 in
    regions <- regionprops labeled_image ;;
    let multiplicity_counts := map area regions in
    Ok multiplicity_counts.

(** The first component is what the call prints. *)
Definition process_images_in_folder (folder_path : string) (threshold_value : Z)
  : stdout * result (list (list Z)) :=
  let image_paths := glob (os_path_join folder_path "*.tiff") in
  if negb (truthy image_paths)
  then (["No TIFF files found in folder: " ++ folder_path]%string, Ok [])
  else
    let all_multiplicities :=
      comprehension
        (fun image_path => count_multiplicity image_path threshold_value)
        image_paths in
    ([], all_multiplicities).

End Script.

Definition average_multiplicity_with_error (all_multiplicities : list (list Z))
  : number * number :=
  let flattened_multiplicities :=
    flat_map (fun sublist => sublist) all_multiplicities in
  if truthy flattened_multiplicities
  then
    let avg_multiplicity := np_mean flattened_multiplicities in
    let std_dev := np_std flattened_multiplicities 1 in
    let n := List.length flattened_multiplicities in
    let sem := PrimFloat.div std_dev (np_sqrt n) in
    (NpFloat avg_multiplicity, NpFloat sem)
  else
    let avg_multiplicity := PyInt 0 in
    let sem := PyInt 0 in
    (avg_multiplicity, sem).

(** ** Predicates used to state the properties *)

(** Only foreground pixels carry a label. *)
Definition foreground_only (mask : list bool) (lab : list nat) : Prop :=
  forall i, nth i lab 0 <> 0 -> nth i mask false = true.

Definition is_foreground (h w : nat) (mask : list bool) (p : pixel) : Prop :=
  in_bounds h w p = true /\ nth (offset w p) mask false = true.

Definition label_at (w : nat) (lab : list nat) (p : pixel) : nat :=
  nth (offset w p) lab 0.

Definition adjacent (connectivity : nat) (p q : pixel) : Prop :=
  In q (neighbours connectivity p).

(** Two foreground pixels are connected when a chain of adjacent foreground
    pixels leads from one to the other. *)
Inductive connected (h w connectivity : nat) (mask : list bool) (p : pixel)
  : pixel -> Prop :=
| connected_here :
    is_foreground h w mask p -> connected h w connectivity mask p p
| connected_next (q r : pixel) :
    connected h w connectivity mask p q ->
    is_foreground h w mask r -> adjacent connectivity q r ->
    connected h w connectivity mask p r.

(** Pixels that carry the same label are connected. *)
Definition label_connected (h w connectivity : nat) (mask : list bool)
  (lab : list nat) : Prop :=
  forall p q, in_bounds h w p = true -> in_bounds h w q = true ->
    label_at w lab p <> 0 -> label_at w lab p = label_at w lab q ->
    connected h w connectivity mask p q.

(** No label above [next] has been handed out. *)
Definition bounded (next : nat) (lab : list nat) : Prop :=
  forall i, nth i lab 0 <= next.

(** While label [k] is being spread: a labelled pixel's foreground
    neighbours carry the same label already or wait in the work list. *)
Definition pending (h w connectivity : nat) (mask : list bool) (k : nat)
  (work : list pixel) (lab : list nat) : Prop :=
  forall p q, is_foreground h w mask p -> is_foreground h w mask q ->
    adjacent connectivity p q -> label_at w lab p <> 0 ->
    label_at w lab q = label_at w lab p
    \/ (label_at w lab p = k /\ In q work).

(** The labelled pixels are closed under adjacency, and adjacent pixels
    agree on their label. *)
Definition closed (h w connectivity : nat) (mask : list bool)
  (lab : list nat) : Prop :=
  forall p q, is_foreground h w mask p -> is_foreground h w mask q ->
    adjacent connectivity p q -> label_at w lab p <> 0 ->
    label_at w lab q = label_at w lab p.

(** Number of foreground pixels still without a label. *)
Fixpoint todo (mask : list bool) (lab : list nat) : nat :=
  match mask, lab with
  | m :: mask', l :: lab' =>
      (if (m && (l =? 0))%bool then 1 else 0) + todo mask' lab'
  | _, _ => 0
  end.

Definition nonzeros (l : list nat) : nat :=
  List.length (filter (fun x => negb (x =? 0)) l).

Definition sum_Z (l : list Z) : Z := fold_right Z.add 0%Z l.

(** Number of cells whose intensity reaches the threshold. *)
Definition foreground_count (image : ndarray Z) (threshold_value : Z) : nat :=
  List.length (filter (fun v => (threshold_value <=? v)%Z) (data image)).

(** The regions of a label image that has pixels. *)
Definition regions (label_image : ndarray nat) : list RegionProperties :=
  flat_map
    (fun k =>
       if pixels_with label_image k =? 0 then []
       else [mk_region k (Z.of_nat (pixels_with label_image k))])
    (seq 1 (list_max (data label_image))).

(** [image.size]: the number of cells. *)
Definition size {A : Type} (a : ndarray A) : nat := size_of_shape (shape a).

(** ** The statistics as the specification words them *)





(** ** Sample inputs *)

(** A 3x3 image whose pixels (0,0) and (1,1) touch at a corner only. *)
Definition corner_image : ndarray Z :=
  mk_ndarray [3; 3] [1; 0; 0;
                     0; 1; 0;
                     0; 0; 0]%Z.

(** A volumetric stack of five 100x100 slices. *)
Definition stack_image : ndarray Z :=
  mk_ndarray [5; 100; 100] (repeat 0%Z (5 * 100 * 100)).

(** A 2D image of shape (0, 5): it has no cell. *)
Definition empty_image : ndarray Z := mk_ndarray [0; 5] [].

(** A single pixel of intensity [v]. *)
Definition dot_image (v : Z) : ndarray Z := mk_ndarray [1; 1] [v].

(** A file system that holds [image] under every path. *)
Definition always (image : ndarray Z) : string -> result (ndarray Z) :=
  fun _ => Ok image.

Definition no_files : string -> list string := fun _ => [].

(** ** The entry point *)

(** What the entry point writes to the console: the prompt of [input] and
    the lines of [print]. *)
Inductive console : Type :=
| Prompt (text : string)
| Line (text : string).

Section EntryPoint.

Variable imread : string -> result (ndarray Z).
Variable glob : string -> list string.

(** The line the user types at the prompt. *)
Variable typed : string.

(** Python's and numpy's text forms of lists and floating-point numbers,
    and [round]; the report only passes values through them. *)
Variable repr_list : list Z -> string.
Variable str_number : number -> string.
Variable py_round : number -> Z -> number.

(** The four lines printed for image number [i] (counted from 0). *)
Definition image_report (i : nat) (multiplicities : list Z) : list string :=
  [("Image " ++ str_nat (i + 1) ++ ":")%string;
   ("  Multiplicities: " ++ repr_list multiplicities)%string;
   ("  Number of clusters: " ++ str_nat (List.length multiplicities))%string;
   ("  Average Multiplicity: "
    ++ str_number (if truthy multiplicities
                   then NpFloat (np_mean multiplicities)
                   else PyInt 0))%string].

Fixpoint enumerate {A : Type} (start : nat) (l : list A) : list (nat * A) :=
  match l with
  | [] => []
  | a :: l' => (start, a) :: enumerate (S start) l'
  end.

Definition main : list console * result unit :=
  let prompt := Prompt "Enter the folder path containing TIFF images: " in
  let folder_path := typed in
  let threshold_value := 1%Z in
  match process_images_in_folder imread glob folder_path threshold_value with
  | (printed, Raise e) => (prompt :: map Line printed, Raise e)
  | (printed, Ok all_multiplicities) =>
      if truthy all_multiplicities
      then
        let (avg_multiplicity, sem) :=
          average_multiplicity_with_error all_multiplicities in
        (prompt :: map Line printed
           ++ map Line
                (flat_map (fun im => image_report (fst im) (snd im))
                   (enumerate 0 all_multiplicities))
           ++ [Line ("Overall Average Multiplicity across all images: "
                     ++ str_number (py_round avg_multiplicity 2))%string;
               Line ("Standard Error of the Mean (SEM): "
                     ++ str_number sem)%string],
         Ok tt)
      else
        (prompt :: map Line printed ++ [Line "No images processed."], Ok tt)
  end.

End EntryPoint.

(** ** Further predicates and sample inputs *)

(** No two distinct foreground pixels touch, at an edge or at a corner. *)
Definition isolated (h w : nat) (image : ndarray Z) (t : Z) : Prop :=
  forall p q, in_bounds h w p = true -> in_bounds h w q = true ->
    (t <= nth (offset w p) (data image) 0)%Z ->
    (t <= nth (offset w q) (data image) 0)%Z ->
    (Z.abs (fst p - fst q) <= 1)%Z -> (Z.abs (snd p - snd q) <= 1)%Z ->
    p = q.

(** A folder of three files: a good image, a volumetric stack, and a file
    that cannot be read. *)
Definition three_files : string -> result (ndarray Z) :=
  fun path =>
    if String.eqb path "run/a.tiff" then Ok corner_image
    else if String.eqb path "run/b.tiff" then Ok stack_image
    else Raise (OSError "cannot read").

Definition three_paths : string -> list string :=
  fun _ => ["run/a.tiff"; "run/b.tiff"; "run/c.tiff"].

Definition two_paths : string -> list string :=
  fun _ => ["run/a.tiff"; "run/a.tiff"].

(** Three isolated foreground pixels in a 3x4 image. *)
Definition sparse_image : ndarray Z :=
  mk_ndarray [3; 4] [7; 0; 0; 2;
                     0; 0; 0; 0;
                     0; 5; 0; 0]%Z.

(** A 2x3 image without background at threshold 1. *)
Definition full_image : ndarray Z :=
  mk_ndarray [2; 3] [1; 2; 3;
                     4; 5; 6]%Z.

(** * Verification *)

(** ** Buffers *)

Lemma length_update {A : Type} (l : list A) (i : nat) (v : A) :
  List.length (update l i v) = List.length l.
Proof.
  revert i; induction l as [|x l IH]; intros [|i]; simpl; auto.
Qed.

Lemma nth_update_same {A : Type} (l : list A) (i : nat) (v d : A) :
  i < List.length l -> nth i (update l i v) d = v.
Proof.
  revert i; induction l as [|x l IH]; intros [|i] Hi; simpl in *; try lia; auto.
  apply IH; lia.
Qed.

Lemma nth_update_other {A : Type} (l : list A) (i j : nat) (v d : A) :
  i <> j -> nth j (update l i v) d = nth j l d.
Proof.
  revert i j; induction l as [|x l IH]; intros [|i] [|j] Hij; simpl; auto;
    try lia.
Qed.

Lemma pixel_at_in_bounds (h w i : nat) :
  i < h * w -> in_bounds h w (pixel_at w i) = true.
Proof.
  intros Hi. unfold in_bounds, pixel_at; simpl.
  assert (Hw : (0 < Z.of_nat w)%Z) by nia.
  pose proof (Z.mod_pos_bound (Z.of_nat i) (Z.of_nat w) Hw) as Hm.
  assert (Hd : (0 <= Z.of_nat i / Z.of_nat w)%Z) by (apply Z.div_pos; lia).
  assert (Hu : (Z.of_nat i / Z.of_nat w < Z.of_nat h)%Z).
  { apply Z.div_lt_upper_bound; nia. }
  repeat (apply andb_true_intro; split);
    first [apply Z.leb_le | apply Z.ltb_lt]; lia.
Qed.

Lemma offset_pixel_at (w i : nat) : 0 < w -> offset w (pixel_at w i) = i.
Proof.
  intros Hw. unfold offset, pixel_at; simpl.
  rewrite Z.mul_comm, <- Z.div_mod by lia. apply Nat2Z.id.
Qed.

Lemma in_bounds_spec (h w : nat) (p : pixel) :
  in_bounds h w p = true <->
  (0 <= fst p < Z.of_nat h /\ 0 <= snd p < Z.of_nat w)%Z.
Proof.
  unfold in_bounds. rewrite !andb_true_iff, !Z.leb_le, !Z.ltb_lt. lia.
Qed.

Lemma offset_lt (h w : nat) (p : pixel) :
  in_bounds h w p = true -> offset w p < h * w.
Proof.
  rewrite in_bounds_spec. unfold offset. destruct p as [r c]; simpl. nia.
Qed.

Lemma offset_inj (h w : nat) (p q : pixel) :
  in_bounds h w p = true -> in_bounds h w q = true ->
  offset w p = offset w q -> p = q.
Proof.
  rewrite !in_bounds_spec. unfold offset.
  destruct p as [r c], q as [r' c']; simpl. intros Hp Hq He.
  apply Z2Nat.inj in He; try nia.
  assert (r = r') by nia. subst r'. f_equal. lia.
Qed.

(** ** Flood fill and raster scan *)

Section Labelling.

Variables h w connectivity : nat.
Variable mask : list bool.

Lemma unlabelled_spec (lab : list nat) (p : pixel) :
  unlabelled h w mask lab p = true <->
  in_bounds h w p = true /\ nth (offset w p) mask false = true
  /\ nth (offset w p) lab 0 = 0.
Proof.
  unfold unlabelled. rewrite !andb_true_iff, Nat.eqb_eq. tauto.
Qed.

Lemma flood_length (fuel k : nat) (work : list pixel) (lab : list nat) :
  List.length (flood fuel h w connectivity mask k work lab) = List.length lab.
Proof.
  revert work lab; induction fuel as [|fuel IH]; intros work lab; simpl; auto.
  destruct work as [|p rest]; auto.
  destruct (unlabelled h w mask lab p); rewrite IH; auto using length_update.
Qed.

Lemma flood_keeps (fuel k : nat) (work : list pixel) (lab : list nat) (i : nat) :
  nth i lab 0 <> 0 ->
  nth i (flood fuel h w connectivity mask k work lab) 0 = nth i lab 0.
Proof.
  revert work lab; induction fuel as [|fuel IH]; intros work lab Hi; simpl; auto.
  destruct work as [|p rest]; auto.
  destruct (unlabelled h w mask lab p) eqn:Hu; auto.
  apply unlabelled_spec in Hu. destruct Hu as (_ & _ & Hz).
  assert (Hne : offset w p <> i) by congruence.
  rewrite IH; rewrite nth_update_other; auto.
Qed.

Lemma flood_foreground_only (fuel k : nat) (work : list pixel) (lab : list nat) :
  foreground_only mask lab ->
  foreground_only mask (flood fuel h w connectivity mask k work lab).
Proof.
  revert work lab; induction fuel as [|fuel IH]; intros work lab Hfg; simpl; auto.
  destruct work as [|p rest]; auto.
  destruct (unlabelled h w mask lab p) eqn:Hu; auto.
  apply unlabelled_spec in Hu. destruct Hu as (_ & Hm & _).
  apply IH. intros i Hi.
  destruct (Nat.eq_dec (offset w p) i) as [<-|Hne]; auto.
  rewrite nth_update_other in Hi; auto.
Qed.

Lemma flood_labels_start (fuel k : nat) (p : pixel) (rest : list pixel)
  (lab : list nat) :
  List.length lab = h * w -> k <> 0 -> unlabelled h w mask lab p = true ->
  nth (offset w p)
      (flood (S fuel) h w connectivity mask k (p :: rest) lab) 0 <> 0.
Proof.
  intros Hlen Hk Hu. simpl. rewrite Hu.
  apply unlabelled_spec in Hu. destruct Hu as (Hb & _ & _).
  apply offset_lt in Hb.
  assert (Hset : nth (offset w p) (update lab (offset w p) k) 0 = k).
  { apply nth_update_same. lia. }
  rewrite flood_keeps; lia.
Qed.

Lemma scan_length (positions : list nat) (next : nat) (lab : list nat) :
  List.length (snd (scan h w connectivity mask positions next lab))
  = List.length lab.
Proof.
  revert next lab; induction positions as [|i ps IH]; intros next lab; simpl; auto.
  destruct (nth i mask false && (nth i lab 0 =? 0))%bool; rewrite IH; auto.
  apply flood_length.
Qed.

Lemma scan_keeps (positions : list nat) (next : nat) (lab : list nat) (i : nat) :
  nth i lab 0 <> 0 ->
  nth i (snd (scan h w connectivity mask positions next lab)) 0 = nth i lab 0.
Proof.
  revert next lab; induction positions as [|j ps IH]; intros next lab Hi; simpl; auto.
  destruct (nth j mask false && (nth j lab 0 =? 0))%bool; rewrite IH; auto.
  - apply flood_keeps; auto.
  - rewrite flood_keeps; auto.
Qed.

Lemma scan_foreground_only (positions : list nat) (next : nat) (lab : list nat) :
  foreground_only mask lab ->
  foreground_only mask (snd (scan h w connectivity mask positions next lab)).
Proof.
  revert next lab; induction positions as [|j ps IH]; intros next lab Hfg; simpl; auto.
  destruct (nth j mask false && (nth j lab 0 =? 0))%bool; apply IH; auto.
  apply flood_foreground_only; auto.
Qed.

Lemma scan_labels (positions : list nat) (next : nat) (lab : list nat) (i : nat) :
  List.length lab = h * w -> In i positions -> i < h * w ->
  nth i mask false = true ->
  nth i (snd (scan h w connectivity mask positions next lab)) 0 <> 0.
Proof.
  revert next lab; induction positions as [|j ps IH];
    intros next lab Hlen Hin Hi Hm; simpl in *; [tauto|].
  destruct (nth j mask false && (nth j lab 0 =? 0))%bool eqn:Hc.
  - destruct Hin as [->|Hin].
    + assert (Hnew : nth i (flood (flood_fuel h w) h w connectivity mask
                               (S next) [pixel_at w i] lab) 0 <> 0).
      { replace (flood_fuel h w) with (S (9 * (h * w)))
          by (unfold flood_fuel; lia).
        rewrite <- (offset_pixel_at w i) at 1 by nia.
        apply flood_labels_start; auto.
        apply andb_true_iff in Hc. destruct Hc as [_ Hz%Nat.eqb_eq].
        apply unlabelled_spec.
        rewrite offset_pixel_at by nia. auto using pixel_at_in_bounds. }
      rewrite scan_keeps; auto.
    + apply IH; auto. rewrite flood_length; auto.
  - destruct Hin as [->|Hin]; [|apply IH; auto].
    rewrite Hm in Hc. simpl in Hc. apply Nat.eqb_neq in Hc.
    rewrite scan_keeps; auto.
Qed.

Hypothesis mask_length : List.length mask = h * w.

Lemma label_2d_length : List.length (label_2d h w connectivity mask) = h * w.
Proof.
  unfold label_2d. rewrite scan_length. apply repeat_length.
Qed.

(** A pixel is labelled exactly when it is foreground. *)
Lemma label_2d_nonzero (i : nat) :
  nth i (label_2d h w connectivity mask) 0 <> 0 <-> nth i mask false = true.
Proof.
  unfold label_2d. split.
  - apply scan_foreground_only. intros j Hj. exfalso; apply Hj.
    apply nth_repeat.
  - intros Hm.
    assert (Hi : i < h * w).
    { rewrite <- mask_length. destruct (Nat.lt_ge_cases i (List.length mask)); auto.
      rewrite nth_overflow in Hm by auto. discriminate. }
    apply scan_labels; auto using repeat_length.
    apply in_seq. lia.
Qed.

End Labelling.

(** ** Adjacent foreground pixels share their label *)

Lemma pixel_eq_dec (p q : pixel) : {p = q} + {p <> q}.
Proof.
  destruct p as [r c], q as [r' c'].
  destruct (Z.eq_dec r r'); [destruct (Z.eq_dec c c')|];
    [left|right|right]; congruence.
Qed.

Lemma adjacent_sym (connectivity : nat) (p q : pixel) :
  adjacent connectivity p q -> adjacent connectivity q p.
Proof.
  unfold adjacent, neighbours. rewrite !in_map_iff.
  intros (d & Hq & Hd). apply filter_In in Hd. destruct Hd as [Hd Hh].
  exists (- fst d, - snd d)%Z. split.
  - subst q. destruct p as [r c]; simpl. f_equal; lia.
  - apply filter_In.
    simpl in Hd. decompose [or] Hd; subst; simpl in *; tauto.
Qed.

Lemma neighbours_length (connectivity : nat) (p : pixel) :
  List.length (neighbours connectivity p) <= 8.
Proof.
  unfold neighbours. rewrite length_map.
  etransitivity; [apply filter_length_le|]. simpl. lia.
Qed.

Lemma todo_le (mask : list bool) (lab : list nat) :
  todo mask lab <= List.length lab.
Proof.
  revert lab; induction mask as [|m mask IH]; intros [|l lab]; simpl; try lia.
  specialize (IH lab). destruct (m && (l =? 0))%bool; lia.
Qed.

Lemma todo_update (mask : list bool) (lab : list nat) (j k : nat) :
  nth j mask false = true -> nth j lab 0 = 0 -> j < List.length lab ->
  k <> 0 -> todo mask lab = S (todo mask (update lab j k)).
Proof.
  revert lab j; induction mask as [|m mask IH]; intros [|l lab] [|j];
    simpl; intros Hm Hl Hj Hk; try discriminate; try lia.
  - subst. destruct k; [lia|]. reflexivity.
  - rewrite (IH lab j) by (auto; lia). lia.
Qed.

Section Components.

Variables h w connectivity : nat.
Variable mask : list bool.

Lemma closed_pending (k : nat) (work : list pixel) (lab : list nat) :
  closed h w connectivity mask lab -> pending h w connectivity mask k work lab.
Proof.
  intros Hc p q Hp Hq Ha Hl. left. eapply Hc; eauto.
Qed.

Lemma pending_nil_closed (k : nat) (lab : list nat) :
  pending h w connectivity mask k [] lab -> closed h w connectivity mask lab.
Proof.
  intros Hp p q Fp Fq Ha Hl.
  destruct (Hp p q Fp Fq Ha Hl) as [|[_ []]]; auto.
Qed.

(** Dropping an already settled pixel from the work list. *)
Lemma pending_skip (k : nat) (p : pixel) (rest : list pixel) (lab : list nat) :
  unlabelled h w mask lab p = false ->
  pending h w connectivity mask k (p :: rest) lab ->
  pending h w connectivity mask k rest lab.
Proof.
  intros Hu Hp a b Fa Fb Hab Hl.
  destruct (Hp a b Fa Fb Hab Hl) as [He|[Hk [<-|Hin]]]; auto.
  assert (Hlp : label_at w lab p <> 0).
  { destruct Fb as [Hb Hm]. unfold unlabelled in Hu. rewrite Hb, Hm in Hu.
    simpl in Hu. apply Nat.eqb_neq in Hu. exact Hu. }
  left. destruct (Hp p a Fb Fa (adjacent_sym _ _ _ Hab) Hlp) as [He|[He _]];
    congruence.
Qed.

(** Labelling a fresh pixel and queueing its neighbours. *)
Lemma pending_visit (k : nat) (p : pixel) (rest : list pixel) (lab : list nat) :
  List.length lab = h * w ->
  unlabelled h w mask lab p = true ->
  pending h w connectivity mask k (p :: rest) lab ->
  pending h w connectivity mask k (neighbours connectivity p ++ rest)
    (update lab (offset w p) k).
Proof.
  intros Hlen Hu Hp a b Fa Fb Hab Hl.
  apply unlabelled_spec in Hu. destruct Hu as (Hb & Hm & Hz).
  assert (Hset : label_at w (update lab (offset w p) k) p = k).
  { apply nth_update_same. apply offset_lt in Hb. lia. }
  assert (Hother : forall c, in_bounds h w c = true -> c <> p ->
            label_at w (update lab (offset w p) k) c = label_at w lab c).
  { intros c Hc Hne. apply nth_update_other. intros He.
    apply Hne. symmetry. eapply offset_inj; eauto. }
  destruct (pixel_eq_dec a p) as [->|Hne].
  - right. split; auto. apply in_or_app. left. exact Hab.
  - rewrite (Hother a (proj1 Fa) Hne) in *.
    destruct (pixel_eq_dec b p) as [->|Hbp].
    + left. rewrite Hset.
      destruct (Hp a p Fa Fb Hab Hl) as [He|[Hk _]]; auto.
      unfold label_at in He at 1. rewrite Hz in He. congruence.
    + rewrite (Hother b (proj1 Fb) Hbp).
      destruct (Hp a b Fa Fb Hab Hl) as [He|[Hk [<-|Hin]]]; auto.
      * congruence.
      * right. split; auto. apply in_or_app. auto.
Qed.

(** With enough fuel the work list empties, and the labels are closed. *)
Lemma flood_closed (fuel k : nat) (work : list pixel) (lab : list nat) :
  k <> 0 -> List.length lab = h * w ->
  9 * todo mask lab + List.length work <= fuel ->
  pending h w connectivity mask k work lab ->
  closed h w connectivity mask (flood fuel h w connectivity mask k work lab).
Proof.
  intros Hk. revert work lab.
  induction fuel as [|fuel IH]; intros work lab Hlen Hfuel Hp.
  - destruct work; simpl in *; [|lia]. eapply pending_nil_closed; eauto.
  - destruct work as [|p rest]; simpl.
    + eapply pending_nil_closed; eauto.
    + destruct (unlabelled h w mask lab p) eqn:Hu.
      * apply IH.
        -- rewrite length_update; auto.
        -- pose proof Hu as Hu'. apply unlabelled_spec in Hu'.
           destruct Hu' as (Hb & Hm & Hz). apply offset_lt in Hb.
           rewrite (todo_update mask lab (offset w p) k) in Hfuel
             by (auto; lia).
           rewrite length_app. pose proof (neighbours_length connectivity p).
           simpl in Hfuel. lia.
        -- apply pending_visit; auto.
      * apply IH; auto.
        -- simpl in Hfuel. lia.
        -- eapply pending_skip; eauto.
Qed.

Lemma scan_closed (positions : list nat) (next : nat) (lab : list nat) :
  List.length lab = h * w ->
  closed h w connectivity mask lab ->
  closed h w connectivity mask
    (snd (scan h w connectivity mask positions next lab)).
Proof.
  revert next lab; induction positions as [|i ps IH];
    intros next lab Hlen Hc; simpl; auto.
  destruct (nth i mask false && (nth i lab 0 =? 0))%bool; apply IH; auto.
  - rewrite flood_length; auto.
  - apply flood_closed; auto using closed_pending.
    pose proof (todo_le mask lab). unfold flood_fuel. simpl. lia.
Qed.

Lemma label_2d_closed :
  closed h w connectivity mask (label_2d h w connectivity mask).
Proof.
  unfold label_2d. apply scan_closed; auto using repeat_length.
  intros p q _ _ _ Hl. exfalso; apply Hl. apply nth_repeat.
Qed.

End Components.

(** ** Pixels with the same label are connected *)

Section Regions.

Variables h w connectivity : nat.
Variable mask : list bool.

Lemma connected_foreground (p q : pixel) :
  connected h w connectivity mask p q ->
  is_foreground h w mask p /\ is_foreground h w mask q.
Proof.
  induction 1; tauto.
Qed.

Lemma connected_trans (p q r : pixel) :
  connected h w connectivity mask p q ->
  connected h w connectivity mask q r ->
  connected h w connectivity mask p r.
Proof.
  intros Hpq Hqr. induction Hqr; auto.
  eapply connected_next; eauto.
Qed.

Lemma connected_sym (p q : pixel) :
  connected h w connectivity mask p q ->
  connected h w connectivity mask q p.
Proof.
  induction 1 as [Hp|q r Hpq IH Hr Hqr].
  - constructor; auto.
  - apply connected_trans with (q := q); auto.
    apply connected_next with (q := r).
    + constructor; auto.
    + apply (connected_foreground _ _ IH).
    + apply adjacent_sym; auto.
Qed.

Lemma flood_value (fuel k : nat) (work : list pixel) (lab : list nat) (i : nat) :
  nth i (flood fuel h w connectivity mask k work lab) 0 = nth i lab 0
  \/ nth i (flood fuel h w connectivity mask k work lab) 0 = k.
Proof.
  revert work lab; induction fuel as [|fuel IH]; intros work lab; simpl; auto.
  destruct work as [|p rest]; auto.
  destruct (unlabelled h w mask lab p) eqn:Hu; auto.
  destruct (IH (neighbours connectivity p ++ rest)
               (update lab (offset w p) k)) as [He|He]; auto.
  rewrite He.
  destruct (Nat.eq_dec (offset w p) i) as [<-|Hne].
  - apply unlabelled_spec in Hu. destruct Hu as (Hb & _ & _).
    apply offset_lt in Hb.
    destruct (Nat.lt_ge_cases (offset w p) (List.length lab)) as [Hlt|Hge].
    + right. apply nth_update_same; auto.
    + left. rewrite !nth_overflow; auto. rewrite length_update; auto.
  - left. apply nth_update_other; auto.
Qed.

(** Label [k] only reaches pixels connected to the seed [s]. *)
Lemma flood_rooted (fuel k : nat) (s : pixel) (work : list pixel)
  (lab : list nat) :
  (forall p, in_bounds h w p = true -> label_at w lab p = k ->
             connected h w connectivity mask s p) ->
  (forall q, In q work -> is_foreground h w mask q ->
             connected h w connectivity mask s q) ->
  forall p, in_bounds h w p = true ->
    label_at w (flood fuel h w connectivity mask k work lab) p = k ->
    connected h w connectivity mask s p.
Proof.
  revert work lab; induction fuel as [|fuel IH]; intros work lab Hlab Hwork;
    simpl; auto.
  destruct work as [|a rest]; auto.
  destruct (unlabelled h w mask lab a) eqn:Hu.
  - apply unlabelled_spec in Hu. destruct Hu as (Hb & Hm & Hz).
    assert (Ha : connected h w connectivity mask s a).
    { apply Hwork; [now left | split; auto]. }
    apply IH.
    + intros p Hp Hk. destruct (pixel_eq_dec p a) as [->|Hne]; auto.
      apply Hlab; auto. rewrite <- Hk. symmetry.
      apply nth_update_other. intros He. apply Hne.
      eapply offset_inj; eauto.
    + intros q Hq Fq. apply in_app_or in Hq. destruct Hq as [Hq|Hq].
      * eapply connected_next; eauto.
      * apply Hwork; auto. now right.
  - apply IH; auto. intros q Hq. apply Hwork. now right.
Qed.

Hypothesis mask_length : List.length mask = h * w.

Lemma scan_label_connected (positions : list nat) (next : nat)
  (lab : list nat) :
  bounded next lab ->
  label_connected h w connectivity mask lab ->
  label_connected h w connectivity mask
    (snd (scan h w connectivity mask positions next lab)).
Proof.
  revert next lab; induction positions as [|i ps IH];
    intros next lab Hbound Hconn; simpl; auto.
  destruct (nth i mask false && (nth i lab 0 =? 0))%bool eqn:Hc; eauto.
  apply andb_true_iff in Hc. destruct Hc as [Hm _].
  assert (Hi : i < h * w).
  { rewrite <- mask_length.
    destruct (Nat.lt_ge_cases i (List.length mask)); auto.
    rewrite nth_overflow in Hm by auto. discriminate. }
  set (s := pixel_at w i).
  set (lab' := flood (flood_fuel h w) h w connectivity mask (S next) [s] lab).
  assert (Fs : is_foreground h w mask s).
  { split; [apply pixel_at_in_bounds; auto|].
    unfold s. rewrite offset_pixel_at by nia. exact Hm. }
  assert (Hroot : forall p, in_bounds h w p = true ->
            label_at w lab' p = S next ->
            connected h w connectivity mask s p).
  { apply flood_rooted.
    - intros p _ Hp. unfold label_at in Hp.
      specialize (Hbound (offset w p)). lia.
    - intros q [<-|[]] _. constructor; auto. }
  apply IH.
  - intros j. destruct (flood_value (flood_fuel h w) (S next) [s] lab j)
      as [He|He]; fold lab' in He; rewrite He; auto.
  - intros p q Hp Hq Hnz Heq.
    destruct (Nat.eq_dec (label_at w lab' p) (S next)) as [Hk|Hk].
    + apply connected_trans with (q := s).
      * apply connected_sym. apply Hroot; auto.
      * apply Hroot; auto. congruence.
    + assert (Hold : forall c, label_at w lab' c <> S next ->
                label_at w lab' c = label_at w lab c).
      { intros c Hne. unfold label_at in *.
        destruct (flood_value (flood_fuel h w) (S next) [s] lab (offset w c))
          as [He|He]; fold lab' in He; congruence. }
      apply Hconn; auto.
      * rewrite <- Hold; auto.
      * rewrite <- !Hold; auto. congruence.
Qed.

Lemma label_2d_label_connected :
  label_connected h w connectivity mask (label_2d h w connectivity mask).
Proof.
  unfold label_2d. apply scan_label_connected.
  - intros i. rewrite nth_repeat. lia.
  - intros p q _ _ Hnz. exfalso. apply Hnz. apply nth_repeat.
Qed.

(** The regions are the groups of connected foreground pixels. *)
Lemma label_2d_regions (p q : pixel) :
  in_bounds h w p = true -> in_bounds h w q = true ->
  (label_at w (label_2d h w connectivity mask) p <> 0
   /\ label_at w (label_2d h w connectivity mask) p
      = label_at w (label_2d h w connectivity mask) q)
  <-> connected h w connectivity mask p q.
Proof.
  intros Hp Hq. split.
  - intros [Hnz Heq]. apply label_2d_label_connected; auto.
  - intros Hconn. clear Hp Hq.
    induction Hconn as [Fp|q r Hpq IH Fr Hqr].
    + split; auto. apply label_2d_nonzero; auto. apply Fp.
    + destruct IH as [Hnz Heq]. split; auto.
      rewrite Heq. symmetry.
      apply (label_2d_closed h w connectivity mask q r); auto.
      * apply (connected_foreground _ _ Hpq).
      * congruence.
Qed.

End Regions.

(** ** Counting pixels per label *)

Lemma list_sum_map_add {A : Type} (f g : A -> nat) (l : list A) :
  list_sum (map (fun a => f a + g a) l)
  = list_sum (map f l) + list_sum (map g l).
Proof.
  induction l as [|a l IH]; simpl; auto. rewrite IH. lia.
Qed.

Lemma list_sum_map_zero {A : Type} (l : list A) :
  list_sum (map (fun _ => 0) l) = 0.
Proof.
  induction l; simpl; auto.
Qed.

Lemma indicator_sum (x s m : nat) :
  list_sum (map (fun k => if Nat.eq_dec x k then 1 else 0) (seq s m))
  = if ((s <=? x) && (x <? s + m))%bool then 1 else 0.
Proof.
  revert s; induction m as [|m IH]; intros s; simpl.
  - destruct (s <=? x) eqn:E1, (x <? s + 0) eqn:E2; simpl; auto.
    apply Nat.leb_le in E1. apply Nat.ltb_lt in E2. lia.
  - rewrite IH.
    destruct (Nat.eq_dec x s) as [->|Hne].
    + rewrite Nat.leb_refl.
      replace (S s <=? s) with false by (symmetry; apply Nat.leb_gt; lia).
      replace (s <? s + S m) with true by (symmetry; apply Nat.ltb_lt; lia).
      reflexivity.
    + destruct (s <=? x) eqn:E1, (S s <=? x) eqn:E2,
               (x <? s + S m) eqn:E3, (x <? S s + m) eqn:E4; simpl; auto;
        repeat match goal with
               | H : (_ <=? _) = true |- _ => apply Nat.leb_le in H
               | H : (_ <=? _) = false |- _ => apply Nat.leb_gt in H
               | H : (_ <? _) = true |- _ => apply Nat.ltb_lt in H
               | H : (_ <? _) = false |- _ => apply Nat.ltb_ge in H
               end; lia.
Qed.

Lemma sum_count_occ (l : list nat) (m : nat) :
  list_max l <= m ->
  list_sum (map (count_occ Nat.eq_dec l) (seq 1 m)) = nonzeros l.
Proof.
  unfold nonzeros. induction l as [|x l IH]; intros Hm.
  - simpl. apply list_sum_map_zero.
  - simpl in Hm.
    rewrite (map_ext _ (fun k => (if Nat.eq_dec x k then 1 else 0)
                                 + count_occ Nat.eq_dec l k)).
    + rewrite list_sum_map_add, indicator_sum, IH by lia. simpl.
      destruct x as [|x]; simpl; auto.
      replace (S x <? S m) with true by (symmetry; apply Nat.ltb_lt; lia).
      reflexivity.
    + intros k. simpl. destruct (Nat.eq_dec x k); lia.
Qed.

Lemma regions_sum (label_image : ndarray nat) :
  sum_Z (map area (regions label_image))
  = Z.of_nat (nonzeros (data label_image)).
Proof.
  rewrite <- (sum_count_occ _ (list_max (data label_image))) by lia.
  unfold regions.
  change (count_occ Nat.eq_dec (data label_image))
    with (pixels_with label_image).
  induction (seq 1 (list_max (data label_image))) as [|k ks IH]; simpl; auto.
  destruct (pixels_with label_image k =? 0) eqn:E; simpl.
  - apply Nat.eqb_eq in E. rewrite IH, E. reflexivity.
  - rewrite IH. lia.
Qed.

Lemma regions_positive (label_image : ndarray nat) :
  Forall (fun a => (0 < a)%Z) (map area (regions label_image)).
Proof.
  unfold regions.
  induction (seq 1 (list_max (data label_image))) as [|k ks IH]; simpl; auto.
  destruct (pixels_with label_image k =? 0) eqn:E; simpl; auto.
  apply Nat.eqb_neq in E. constructor; auto. simpl. lia.
Qed.

Lemma nonzeros_mask (mask : list bool) (lab : list nat) :
  List.length lab = List.length mask ->
  (forall i, nth i lab 0 <> 0 <-> nth i mask false = true) ->
  nonzeros lab = List.length (filter (fun b : bool => b) mask).
Proof.
  unfold nonzeros.
  revert lab; induction mask as [|m mask IH]; intros [|l lab] Hlen Hiff;
    simpl in *; try discriminate; auto.
  assert (Htail : List.length (filter (fun x => negb (x =? 0)) lab)
                  = List.length (filter (fun b : bool => b) mask)).
  { apply IH; [lia|]. intros i. apply (Hiff (S i)). }
  specialize (Hiff 0). simpl in Hiff.
  destruct l as [|l], m; simpl; lia.
Qed.

Lemma mask_count (image : ndarray Z) (t : Z) :
  List.length (filter (fun b : bool => b) (data (ge_scalar image t)))
  = foreground_count image t.
Proof.
  unfold foreground_count. simpl.
  induction (data image) as [|v l IH]; simpl; auto.
  rewrite Z.geb_leb. destruct (t <=? v)%Z; simpl; auto.
Qed.

Lemma ndim_2 {A : Type} (a : ndarray A) :
  ndim a = 2 -> exists h w, shape a = [h; w].
Proof.
  unfold ndim. destruct (shape a) as [|h [|w [|]]]; simpl; try discriminate.
  eauto.
Qed.

Lemma regionprops_ok (label_image : ndarray nat) :
  data label_image <> [] -> regionprops label_image = Ok (regions label_image).
Proof.
  unfold regionprops, np_max, regions.
  destruct (data label_image); [congruence|reflexivity].
Qed.

Lemma regionprops_zero_size (label_image : ndarray nat) :
  data label_image = [] ->
  regionprops label_image
  = Raise (ValueError
      "zero-size array to reduction operation maximum which has no identity").
Proof.
  unfold regionprops, np_max. intros ->. reflexivity.
Qed.

(** On a 2D image the shape check passes and the regions of the labelled
    mask are measured. *)
Lemma count_multiplicity_measures (imread : string -> result (ndarray Z))
  (path : string) (image : ndarray Z) (t : Z) (h w : nat) :
  imread path = Ok image -> shape image = [h; w] ->
  count_multiplicity imread path t
  = (found <- regionprops
       (mk_ndarray [h; w] (label_2d h w 2 (data (ge_scalar image t)))) ;;
     Ok (map area found)).
Proof.
  intros Hread Hshape. unfold count_multiplicity. rewrite Hread. simpl.
  unfold ndim, label. simpl. rewrite Hshape. reflexivity.
Qed.

Lemma label_2d_has_pixels (h w connectivity : nat) (mask : list bool) :
  h * w <> 0 -> label_2d h w connectivity mask <> [].
Proof.
  intros Hsize Hnil. apply Hsize.
  rewrite <- (label_2d_length h w connectivity mask), Hnil. reflexivity.
Qed.

Lemma count_multiplicity_2d (imread : string -> result (ndarray Z))
  (path : string) (image : ndarray Z) (t : Z) (h w : nat) :
  imread path = Ok image -> shape image = [h; w] -> h * w <> 0 ->
  count_multiplicity imread path t
  = Ok (map area (regions
         (mk_ndarray [h; w] (label_2d h w 2 (data (ge_scalar image t)))))).
Proof.
  intros Hread Hshape Hsize.
  rewrite (count_multiplicity_measures imread path image t h w) by auto.
  rewrite regionprops_ok; [reflexivity|].
  cbn [data]. apply label_2d_has_pixels. exact Hsize.
Qed.

Lemma count_multiplicity_zero_size (imread : string -> result (ndarray Z))
  (path : string) (image : ndarray Z) (t : Z) (h w : nat) :
  imread path = Ok image -> shape image = [h; w] -> h * w = 0 ->
  count_multiplicity imread path t
  = Raise (ValueError
      "zero-size array to reduction operation maximum which has no identity").
Proof.
  intros Hread Hshape Hsize.
  rewrite (count_multiplicity_measures imread path image t h w) by auto.
  rewrite regionprops_zero_size; [reflexivity|].
  cbn [data]. apply length_zero_iff_nil.
  rewrite label_2d_length. exact Hsize.
Qed.

Lemma size_2d {A : Type} (a : ndarray A) (h w : nat) :
  shape a = [h; w] -> size a = h * w.
Proof.
  unfold size. intros ->. simpl. lia.
Qed.

Lemma labelled_count (image : ndarray Z) (t : Z) (h w : nat) :
  shape image = [h; w] -> well_formed image ->
  nonzeros (label_2d h w 2 (data (ge_scalar image t)))
  = foreground_count image t.
Proof.
  intros Hshape Hwf. unfold well_formed in Hwf. rewrite Hshape in Hwf.
  simpl in Hwf. rewrite Nat.mul_1_r in Hwf.
  assert (Hlen : List.length (data (ge_scalar image t)) = h * w).
  { simpl. rewrite length_map. exact Hwf. }
  rewrite <- mask_count. apply nonzeros_mask.
  - rewrite label_2d_length. auto.
  - intros i. apply label_2d_nonzero. exact Hlen.
Qed.

Lemma adjacent_8 (p q : pixel) :
  (Z.abs (fst p - fst q) <= 1)%Z -> (Z.abs (snd p - snd q) <= 1)%Z ->
  p <> q -> adjacent 2 p q.
Proof.
  destruct p as [r c], q as [r' c']; simpl. intros Hr Hc Hne.
  unfold adjacent, neighbours; simpl.
  assert (Hr' : (r' = r + -1 \/ r' = r + 0 \/ r' = r + 1)%Z) by lia.
  assert (Hc' : (c' = c + -1 \/ c' = c + 0 \/ c' = c + 1)%Z) by lia.
  destruct Hr' as [->|[->| ->]], Hc' as [->|[->| ->]]; try tauto.
  exfalso. apply Hne. f_equal; lia.
Qed.

Lemma nth_ge_scalar (image : ndarray Z) (t : Z) (i : nat) :
  i < List.length (data image) ->
  nth i (data (ge_scalar image t)) false = (t <=? nth i (data image) 0)%Z.
Proof.
  intros Hi. simpl.
  rewrite (nth_indep _ false (Z.geb 0 t)) by (rewrite length_map; exact Hi).
  rewrite (map_nth (fun v => Z.geb v t)). apply Z.geb_leb.
Qed.

Lemma shape_2d_length (image : ndarray Z) (h w : nat) :
  shape image = [h; w] -> well_formed image ->
  List.length (data image) = h * w.
Proof.
  unfold well_formed. intros ->. simpl. lia.
Qed.

(** Foreground pixels that touch, at an edge or at a corner, get one label. *)
Lemma neighbours_share_label (image : ndarray Z) (t : Z) (h w : nat)
  (p q : pixel) :
  shape image = [h; w] -> well_formed image ->
  in_bounds h w p = true -> in_bounds h w q = true ->
  (t <= nth (offset w p) (data image) 0)%Z ->
  (t <= nth (offset w q) (data image) 0)%Z ->
  (Z.abs (fst p - fst q) <= 1)%Z -> (Z.abs (snd p - snd q) <= 1)%Z ->
  label_at w (data (label (ge_scalar image t) 2)) p
  = label_at w (data (label (ge_scalar image t) 2)) q
  /\ label_at w (data (label (ge_scalar image t) 2)) p <> 0.
Proof.
  intros Hshape Hwf Hp Hq Tp Tq Hr Hc.
  pose proof (shape_2d_length image h w Hshape Hwf) as Hlen.
  assert (Hmask : List.length (data (ge_scalar image t)) = h * w).
  { simpl. rewrite length_map. exact Hlen. }
  assert (Fp : is_foreground h w (data (ge_scalar image t)) p).
  { split; auto. rewrite nth_ge_scalar; [apply Z.leb_le; auto|].
    apply offset_lt in Hp. lia. }
  assert (Fq : is_foreground h w (data (ge_scalar image t)) q).
  { split; auto. rewrite nth_ge_scalar; [apply Z.leb_le; auto|].
    apply offset_lt in Hq. lia. }
  unfold label. replace (shape (ge_scalar image t)) with [h; w] by auto.
  cbn [data].
  assert (Hnz : label_at w (label_2d h w 2 (data (ge_scalar image t))) p <> 0).
  { apply label_2d_nonzero; auto. apply Fp. }
  split; auto.
  destruct (pixel_eq_dec p q) as [->|Hne]; auto.
  symmetry. apply (label_2d_closed h w 2 _ p q); auto.
  apply adjacent_8; auto.
Qed.

(** * The claims about [count_multiplicity] *)

(** C1.  The threshold comparison is inclusive.  In a 2D image the pixel at
    buffer position [i] is set in the thresholded mask, and carries a region
    label, exactly when its intensity is greater than or equal to the
    threshold.  A pixel of intensity [t] is therefore in the mask and one of
    intensity [t - 1] is not: a one-pixel image of intensity [t] has one
    region of size 1, a one-pixel image of intensity [t - 1] has none. *)
Theorem threshold_inclusive (image : ndarray Z) (t : Z) (h w i : nat) :
  shape image = [h; w] -> well_formed image -> i < h * w ->
  (nth i (data (ge_scalar image t)) false = true
   <-> (t <= nth i (data image) 0)%Z)
  /\ (nth i (data (label (ge_scalar image t) 2)) 0 <> 0
      <-> (t <= nth i (data image) 0)%Z)
  /\ (nth i (data image) 0%Z = t ->
      nth i (data (ge_scalar image t)) false = true)
  /\ (nth i (data image) 0%Z = (t - 1)%Z ->
      nth i (data (ge_scalar image t)) false = false)
  /\ (forall path,
        count_multiplicity (always (dot_image t)) path t = Ok [1%Z]
        /\ count_multiplicity (always (dot_image (t - 1))) path t = Ok []).
Proof.
  intros Hshape Hwf Hi.
  pose proof (shape_2d_length image h w Hshape Hwf) as Hlen.
  assert (Hmask : nth i (data (ge_scalar image t)) false
                  = (t <=? nth i (data image) 0)%Z).
  { apply nth_ge_scalar. lia. }
  split; [|split; [|split; [|split]]].
  - rewrite Hmask. apply Z.leb_le.
  - unfold label. replace (shape (ge_scalar image t)) with [h; w] by auto.
    cbn [data]. rewrite label_2d_nonzero.
    + rewrite Hmask. apply Z.leb_le.
    + simpl. rewrite length_map. exact Hlen.
  - intros He. rewrite Hmask, He. apply Z.leb_refl.
  - intros He. rewrite Hmask, He. apply Z.leb_gt. lia.
  - intros path. split.
    + rewrite (count_multiplicity_2d _ path (dot_image t) t 1 1)
        by (first [reflexivity | discriminate]).
      simpl. rewrite Z.geb_leb, Z.leb_refl. reflexivity.
    + rewrite (count_multiplicity_2d _ path (dot_image (t - 1)) t 1 1)
        by (first [reflexivity | discriminate]).
      simpl. rewrite Z.geb_leb.
      replace (t <=? t - 1)%Z with false by (symmetry; apply Z.leb_gt; lia).
      reflexivity.
Qed.

Lemma threshold_inclusive_witness :
  (nth 4 (data (ge_scalar corner_image 1)) false = true
   <-> (1 <= nth 4 (data corner_image) 0)%Z)
  /\ count_multiplicity (always (dot_image 1)) "a.tiff" 1 = Ok [1%Z].
Proof.
  destruct (threshold_inclusive corner_image 1 3 3 4)
    as (H1 & _ & _ & _ & H5);
    [reflexivity | reflexivity | lia |].
  split; [exact H1 | exact (proj1 (H5 "a.tiff"))].
Defined.

(** C2.  Regions are formed under 8-connectivity.  Two foreground pixels of
    a 2D image that touch only at a corner carry the same region label, and
    two pixels carry the same region label exactly when a chain of
    foreground pixels, each touching the next at an edge or a corner, joins
    them.  For the 3x3 image whose only foreground pixels at threshold 1 are
    (0,0) and (1,1), [count_multiplicity] returns [[2]]; edge connectivity
    alone would have kept them apart as [[1; 1]]. *)
Theorem corner_pixels_share_region :
  (forall (image : ndarray Z) (t : Z) (h w : nat) (p q : pixel),
      shape image = [h; w] -> well_formed image ->
      in_bounds h w p = true -> in_bounds h w q = true ->
      (t <= nth (offset w p) (data image) 0)%Z ->
      (t <= nth (offset w q) (data image) 0)%Z ->
      Z.abs (fst p - fst q) = 1%Z -> Z.abs (snd p - snd q) = 1%Z ->
      label_at w (data (label (ge_scalar image t) 2)) p
      = label_at w (data (label (ge_scalar image t) 2)) q
      /\ label_at w (data (label (ge_scalar image t) 2)) p <> 0)
  /\ (forall (image : ndarray Z) (t : Z) (h w : nat) (p q : pixel),
         shape image = [h; w] -> well_formed image ->
         in_bounds h w p = true -> in_bounds h w q = true ->
         (label_at w (data (label (ge_scalar image t) 2)) p <> 0
          /\ label_at w (data (label (ge_scalar image t) 2)) p
             = label_at w (data (label (ge_scalar image t) 2)) q)
         <-> connected h w 2 (data (ge_scalar image t)) p q)
  /\ (forall path, count_multiplicity (always corner_image) path 1 = Ok [2%Z])
  /\ (found <- regionprops (label (ge_scalar corner_image 1) 1) ;;
      Ok (map area found)) = Ok [1%Z; 1%Z].
Proof.
  split; [|split; [|split]].
  - intros image t h w p q Hshape Hwf Hp Hq Tp Tq Hr Hc.
    apply (neighbours_share_label image t h w p q); auto; lia.
  - intros image t h w p q Hshape Hwf Hp Hq.
    unfold label. replace (shape (ge_scalar image t)) with [h; w] by auto.
    cbn [data]. apply label_2d_regions; auto.
    simpl. rewrite length_map. apply shape_2d_length; auto.
  - intros path. reflexivity.
  - reflexivity.
Qed.

Lemma corner_pixels_share_region_witness :
  (label_at 3 (data (label (ge_scalar corner_image 1) 2)) (0, 0)%Z
   = label_at 3 (data (label (ge_scalar corner_image 1) 2)) (1, 1)%Z
   /\ label_at 3 (data (label (ge_scalar corner_image 1) 2)) (0, 0)%Z <> 0)
  /\ connected 3 3 2 (data (ge_scalar corner_image 1)) (0, 0)%Z (1, 1)%Z.
Proof.
  split.
  - apply (proj1 corner_pixels_share_region
             corner_image 1%Z 3 3 (0, 0)%Z (1, 1)%Z);
      try reflexivity; simpl; lia.
  - apply (proj1 (proj2 corner_pixels_share_region)
             corner_image 1%Z 3 3 (0, 0)%Z (1, 1)%Z);
      try reflexivity.
    split; [vm_compute; lia | reflexivity].
Defined.

(** C3, as the code has it.  For a 2D image that has at least one cell,
    the multiplicities add up to the number of its cells whose intensity is
    greater than or equal to the threshold. *)
Theorem multiplicities_sum_to_foreground
  (imread : string -> result (ndarray Z)) (path : string)
  (image : ndarray Z) (t : Z) :
  imread path = Ok image -> ndim image = 2 -> well_formed image ->
  size image <> 0 ->
  exists counts,
    count_multiplicity imread path t = Ok counts
    /\ sum_Z counts = Z.of_nat (foreground_count image t).
Proof.
  intros Hread Hdim Hwf Hsize. destruct (ndim_2 image Hdim) as (h & w & Hshape).
  rewrite (size_2d image h w Hshape) in Hsize.
  eexists. split; [eapply count_multiplicity_2d; eauto|].
  rewrite regions_sum. cbn [data]. f_equal.
  apply labelled_count; auto.
Qed.

Lemma multiplicities_sum_to_foreground_witness :
  exists counts,
    count_multiplicity (always corner_image) "a.tiff" 1 = Ok counts
    /\ sum_Z counts = Z.of_nat (foreground_count corner_image 1).
Proof.
  apply (multiplicities_sum_to_foreground (always corner_image) "a.tiff"
           corner_image 1%Z); try reflexivity.
  vm_compute. discriminate.
Defined.

(** C3, as the spec words it, fails on a 2D image without cells: for the
    image of shape (0, 5) the regions cannot be measured, the call raises,
    and there is no list whose sum could equal the foreground count 0. *)
Lemma zero_size_image_has_no_sum :
  ndim empty_image = 2 /\ well_formed empty_image
  /\ count_multiplicity (always empty_image) "a.tiff" 1
     = Raise (ValueError
         "zero-size array to reduction operation maximum which has no identity")
  /\ ~ (exists counts,
          count_multiplicity (always empty_image) "a.tiff" 1 = Ok counts
          /\ sum_Z counts = Z.of_nat (foreground_count empty_image 1)).
Proof.
  split; [reflexivity|]. split; [reflexivity|]. split; [reflexivity|].
  intros (counts & Hrun & _). vm_compute in Hrun. discriminate Hrun.
Qed.

(** C5.  An image that does not have exactly two dimensions makes
    [count_multiplicity] raise the shape error (a [ValueError] that carries
    the shape).  The check is the first thing done with the loaded image:
    the outcome is the same for every threshold and every pixel content, so
    nothing is thresholded or labelled.  A two-dimensional image never
    raises the shape error, and one that has at least one cell raises
    nothing.  The stack of shape (5, 100, 100) is rejected. *)
Theorem non_2d_image_rejected :
  (forall (imread : string -> result (ndarray Z)) (path : string)
          (image : ndarray Z) (t : Z),
      imread path = Ok image -> ndim image <> 2 ->
      count_multiplicity imread path t
      = Raise (ValueError ("Expected a 2D grayscale image, but got shape "
                           ++ repr_shape (shape image))%string))
  /\ (forall (imread : string -> result (ndarray Z)) (path : string)
             (image : ndarray Z) (t : Z),
         imread path = Ok image -> ndim image = 2 ->
         (forall s, count_multiplicity imread path t
                    <> Raise (ValueError
                         ("Expected a 2D grayscale image, but got shape "
                          ++ s)%string))
         /\ (size image <> 0 ->
             exists counts, count_multiplicity imread path t = Ok counts))
  /\ (forall path t,
         count_multiplicity (always stack_image) path t
         = Raise (ValueError
             "Expected a 2D grayscale image, but got shape (5, 100, 100)")).
Proof.
  split; [|split].
  - intros imread path image t Hread Hdim.
    unfold count_multiplicity. rewrite Hread. simpl.
    apply Nat.eqb_neq in Hdim. rewrite Hdim. reflexivity.
  - intros imread path image t Hread Hdim.
    destruct (ndim_2 image Hdim) as (h & w & Hshape). split.
    + intros s. destruct (Nat.eq_dec (h * w) 0) as [Hz|Hnz].
      * rewrite (count_multiplicity_zero_size imread path image t h w) by auto.
        simpl. discriminate.
      * rewrite (count_multiplicity_2d imread path image t h w) by auto.
        discriminate.
    + intros Hsize. rewrite (size_2d image h w Hshape) in Hsize.
      eexists. eapply count_multiplicity_2d; eauto.
  - intros path t. reflexivity.
Qed.

Lemma non_2d_image_rejected_witness :
  count_multiplicity (always stack_image) "stack.tiff" 1
  = Raise (ValueError ("Expected a 2D grayscale image, but got shape "
                       ++ repr_shape (shape stack_image))%string)
  /\ (exists counts,
        count_multiplicity (always corner_image) "a.tiff" 1 = Ok counts)
  /\ count_multiplicity (always empty_image) "a.tiff" 1
     <> Raise (ValueError
          ("Expected a 2D grayscale image, but got shape " ++ "(0, 5)")%string).
Proof.
  split; [|split].
  - apply (proj1 non_2d_image_rejected (always stack_image) "stack.tiff"
             stack_image 1%Z); [reflexivity | vm_compute; lia].
  - apply (proj1 (proj2 non_2d_image_rejected) (always corner_image) "a.tiff"
             corner_image 1%Z); try reflexivity.
    vm_compute. discriminate.
  - apply (proj1 (proj2 non_2d_image_rejected) (always empty_image) "a.tiff"
             empty_image 1%Z); reflexivity.
Defined.

Lemma scan_background (h w connectivity : nat) (mask : list bool)
  (positions : list nat) (next : nat) (lab : list nat) :
  (forall i, nth i mask false = false) ->
  scan h w connectivity mask positions next lab = (next, lab).
Proof.
  intros Hbg. revert next lab.
  induction positions as [|i ps IH]; intros next lab; simpl; auto.
  rewrite Hbg. simpl. apply IH.
Qed.

Lemma list_max_repeat_0 (n : nat) : list_max (repeat 0 n) = 0.
Proof.
  induction n; simpl; auto.
Qed.

Lemma mask_all_false (image : ndarray Z) (t : Z) :
  (forall v, In v (data image) -> (v < t)%Z) ->
  forall i, nth i (data (ge_scalar image t)) false = false.
Proof.
  simpl. induction (data image) as [|v l IH]; intros Hlt [|i]; simpl; auto.
  - rewrite Z.geb_leb. apply Z.leb_gt. apply Hlt. now left.
  - apply IH. intros v' Hv'. apply Hlt. now right.
Qed.

Lemma length_le_sum (counts : list Z) :
  Forall (fun m => (0 < m)%Z) counts ->
  (Z.of_nat (List.length counts) <= sum_Z counts)%Z.
Proof.
  induction 1 as [|m l Hm _ IH]; simpl; lia.
Qed.

(** C6, as the code has it.  Whenever no pixel of a 2D image that has at
    least one cell reaches the threshold, [count_multiplicity] returns the
    empty list and raises nothing; an all-zero image is such an image for
    every threshold that is at least 1. *)
Theorem background_only_gives_no_regions :
  (forall (imread : string -> result (ndarray Z)) (path : string)
          (image : ndarray Z) (t : Z),
      imread path = Ok image -> ndim image = 2 -> size image <> 0 ->
      (forall v, In v (data image) -> (v < t)%Z) ->
      count_multiplicity imread path t = Ok [])
  /\ (forall (imread : string -> result (ndarray Z)) (path : string)
             (image : ndarray Z) (t : Z),
         imread path = Ok image -> ndim image = 2 -> size image <> 0 ->
         (forall v, In v (data image) -> v = 0%Z) -> (1 <= t)%Z ->
         count_multiplicity imread path t = Ok []).
Proof.
  assert (Hgen : forall imread path image t,
             imread path = Ok image -> ndim image = 2 -> size image <> 0 ->
             (forall v, In v (data image) -> (v < t)%Z) ->
             count_multiplicity imread path t = Ok []).
  { intros imread path image t Hread Hdim Hsize Hlt.
    destruct (ndim_2 image Hdim) as (h & w & Hshape).
    rewrite (size_2d image h w Hshape) in Hsize.
    rewrite (count_multiplicity_2d imread path image t h w) by auto.
    unfold label_2d.
    rewrite scan_background by (apply mask_all_false; auto).
    unfold regions. cbn [data snd]. rewrite list_max_repeat_0.
    reflexivity. }
  split; auto.
  intros imread path image t Hread Hdim Hsize Hzero Ht.
  apply Hgen with (image := image); auto.
  intros v Hv. rewrite (Hzero v Hv). lia.
Qed.

Lemma background_only_gives_no_regions_witness :
  count_multiplicity (always corner_image) "a.tiff" 2 = Ok []
  /\ count_multiplicity (always (dot_image 0)) "a.tiff" 1 = Ok [].
Proof.
  split.
  - apply (proj1 background_only_gives_no_regions (always corner_image)
             "a.tiff" corner_image 2%Z); try reflexivity.
    + vm_compute. discriminate.
    + simpl. intros v Hv. decompose [or] Hv; subst; lia.
  - apply (proj2 background_only_gives_no_regions (always (dot_image 0))
             "a.tiff" (dot_image 0) 1%Z); try reflexivity; try lia.
    + vm_compute. discriminate.
    + simpl. intros v [Hv|[]]. auto.
Defined.

(** C6, as the spec words it, fails twice.  With threshold 0 the single
    pixel of an all-zero 1x1 image meets the threshold and forms a region of
    size 1.  And in the 2D image of shape (0, 5) no pixel meets any
    threshold, yet the call raises. *)
Lemma all_zero_image_not_always_empty :
  ~ (forall (image : ndarray Z) (t : Z),
        ndim image = 2 -> (forall v, In v (data image) -> v = 0%Z) ->
        count_multiplicity (always image) "a.tiff" t = Ok [])
  /\ ~ (forall (image : ndarray Z) (t : Z),
          ndim image = 2 -> (forall v, In v (data image) -> (v < t)%Z) ->
          count_multiplicity (always image) "a.tiff" t = Ok []).
Proof.
  split.
  - intros H. specialize (H (dot_image 0) 0%Z eq_refl).
    assert (Hz : forall v, In v (data (dot_image 0)) -> v = 0%Z).
    { simpl. intros v [Hv|[]]. auto. }
    specialize (H Hz). vm_compute in H. discriminate H.
  - intros H. specialize (H empty_image 1%Z eq_refl).
    assert (Hz : forall v, In v (data empty_image) -> (v < 1)%Z).
    { simpl. intros v []. }
    specialize (H Hz). vm_compute in H. discriminate H.
Qed.

(** C9.  Every multiplicity in a list returned for a 2D image is strictly
    positive, and the list has no more entries than the image has foreground
    pixels.  A list is returned whenever the image has at least one cell. *)
Theorem multiplicities_positive
  (imread : string -> result (ndarray Z)) (path : string)
  (image : ndarray Z) (t : Z) :
  imread path = Ok image -> ndim image = 2 -> well_formed image ->
  (forall counts,
      count_multiplicity imread path t = Ok counts ->
      Forall (fun m => (0 < m)%Z) counts
      /\ List.length counts <= foreground_count image t)
  /\ (size image <> 0 ->
      exists counts, count_multiplicity imread path t = Ok counts).
Proof.
  intros Hread Hdim Hwf. destruct (ndim_2 image Hdim) as (h & w & Hshape).
  rewrite (size_2d image h w Hshape). split.
  - intros counts Hrun.
    destruct (Nat.eq_dec (h * w) 0) as [Hz|Hnz].
    { rewrite (count_multiplicity_zero_size imread path image t h w) in Hrun
        by auto. discriminate Hrun. }
    rewrite (count_multiplicity_2d imread path image t h w) in Hrun by auto.
    injection Hrun as <-.
    split; [apply regions_positive|].
    apply Nat2Z.inj_le. etransitivity.
    + apply length_le_sum, regions_positive.
    + rewrite regions_sum. cbn [data].
      rewrite <- (labelled_count image t h w Hshape Hwf). simpl. lia.
  - intros Hsize. eexists. eapply count_multiplicity_2d; eauto.
Qed.

Lemma multiplicities_positive_witness :
  (forall counts,
      count_multiplicity (always corner_image) "a.tiff" 1 = Ok counts ->
      Forall (fun m => (0 < m)%Z) counts
      /\ List.length counts <= foreground_count corner_image 1)
  /\ exists counts,
       count_multiplicity (always corner_image) "a.tiff" 1 = Ok counts.
Proof.
  destruct (multiplicities_positive (always corner_image) "a.tiff"
              corner_image 1%Z) as [Hall Hsome]; try reflexivity.
  split; [exact Hall|]. apply Hsome. vm_compute. discriminate.
Defined.

(** * The claims about [process_images_in_folder] *)

(** C8.  When no file of the folder matches [*.tiff], the call prints the
    notice naming the folder and returns the empty list; it raises nothing
    and reads no image. *)
Theorem empty_folder_returns_empty_list
  (imread : string -> result (ndarray Z)) (glob : string -> list string)
  (folder_path : string) (t : Z) :
  glob (os_path_join folder_path "*.tiff") = [] ->
  process_images_in_folder imread glob folder_path t
  = (["No TIFF files found in folder: " ++ folder_path]%string, Ok []).
Proof.
  intros Hglob. unfold process_images_in_folder. rewrite Hglob. reflexivity.
Qed.

Lemma empty_folder_returns_empty_list_witness :
  process_images_in_folder (always corner_image) no_files "data/run1" 1
  = (["No TIFF files found in folder: data/run1"], Ok []).
Proof.
  apply (empty_folder_returns_empty_list (always corner_image) no_files
           "data/run1" 1%Z).
  reflexivity.
Defined.

(** * The claims about [average_multiplicity_with_error] *)

Lemma flatten_concat (xss : list (list Z)) :
  flat_map (fun sublist => sublist) xss = List.concat xss.
Proof.
  induction xss as [|xs xss IH]; simpl; congruence.
Qed.

Lemma truthy_nonempty {A : Type} (l : list A) : l <> [] -> truthy l = true.
Proof.
  destruct l; simpl; congruence.
Qed.

(** The fuel of the pairwise sum is never used up: any fuel that is at least
    the length of the list gives the same sum. *)
Lemma pairwise_sum_fuel (fuel fuel' : nat) (l : list float) :
  List.length l <= fuel -> List.length l <= fuel' ->
  pairwise_sum fuel l = pairwise_sum fuel' l.
Proof.
  revert fuel' l. induction fuel as [|fuel IH]; intros fuel' l Hf Hf'.
  - assert (Hl : List.length l = 0) by lia.
    destruct fuel'; simpl; rewrite Hl; reflexivity.
  - destruct fuel' as [|fuel'].
    + assert (Hl : List.length l = 0) by lia.
      simpl; rewrite Hl; reflexivity.
    + cbn [pairwise_sum].
      destruct (List.length l <? 8) eqn:E8; auto.
      destruct (List.length l <=? 128) eqn:E128; auto.
      apply Nat.leb_gt in E128.
      set (n := List.length l) in *.
      assert (Hhalf : 64 <= n / 2) by (apply Nat.div_le_lower_bound; lia).
      assert (Hhalf' : n / 2 < n) by (apply Nat.div_lt; lia).
      assert (Hmod : (n / 2) mod 8 < 8) by (apply Nat.mod_upper_bound; lia).
      assert (Hmod' : (n / 2) mod 8 <= n / 2) by (apply Nat.Div0.mod_le).
      f_equal; apply IH; rewrite ?length_firstn, ?length_skipn; fold n; lia.
Qed.

Lemma buffered_sum_fuel (fuel fuel' : nat) (acc : float) (a : list Z) :
  List.length a <= fuel -> List.length a <= fuel' ->
  buffered_sum fuel acc a = buffered_sum fuel' acc a.
Proof.
  revert fuel' acc a. induction fuel as [|fuel IH]; intros fuel' acc a Hf Hf'.
  - destruct a; [|simpl in Hf; lia]. destruct fuel'; reflexivity.
  - destruct a as [|z a]; [destruct fuel'; reflexivity|].
    destruct fuel' as [|fuel']; [simpl in Hf'; lia|].
    cbn [buffered_sum]. apply IH.
    + rewrite length_skipn. unfold bufsize. simpl List.length in *. lia.
    + rewrite length_skipn. unfold bufsize. simpl List.length in *. lia.
Qed.




(** C7.  When the flattened sequence is empty, as for the input [[[]]] (one
    image without regions) and for the empty input, the mean and the SEM
    are both 0; nothing is divided and nothing is raised. *)
Theorem no_regions_gives_zero_statistics :
  (forall xss : list (list Z),
      List.concat xss = [] ->
      average_multiplicity_with_error xss = (PyInt 0, PyInt 0))
  /\ average_multiplicity_with_error [[]] = (PyInt 0, PyInt 0)
  /\ average_multiplicity_with_error [] = (PyInt 0, PyInt 0).
Proof.
  split; [|split]; try reflexivity.
  intros xss Hnil. unfold average_multiplicity_with_error.
  rewrite flatten_concat, Hnil. reflexivity.
Qed.

Lemma no_regions_gives_zero_statistics_witness :
  average_multiplicity_with_error [[]; []; []] = (PyInt 0, PyInt 0).
Proof.
  apply (proj1 no_regions_gives_zero_statistics [[]; []; []]). reflexivity.
Defined.

(** C10, as the code has it.  The result depends on the flattened sequence
    of values only: regrouping the values into other sublists without
    changing their order, or adding an empty sublist, leaves the mean and
    the SEM unchanged, and an input gives the same result as the single
    list of its flattened values. *)
Theorem statistics_depend_on_flattened_sequence :
  (forall xss yss : list (list Z),
      List.concat xss = List.concat yss ->
      average_multiplicity_with_error xss
      = average_multiplicity_with_error yss)
  /\ (forall xss yss : list (list Z),
         average_multiplicity_with_error (xss ++ [] :: yss)
         = average_multiplicity_with_error (xss ++ yss))
  /\ (forall xss : list (list Z),
         average_multiplicity_with_error xss
         = average_multiplicity_with_error [List.concat xss]).
Proof.
  split; [|split].
  - intros xss yss Heq. unfold average_multiplicity_with_error.
    rewrite !flatten_concat, Heq. reflexivity.
  - intros xss yss. unfold average_multiplicity_with_error.
    rewrite !flatten_concat, !concat_app. reflexivity.
  - intros xss. unfold average_multiplicity_with_error.
    rewrite !flatten_concat. simpl. rewrite app_nil_r. reflexivity.
Qed.

Lemma statistics_depend_on_flattened_sequence_witness :
  average_multiplicity_with_error [[2; 3]; [5]]%Z
  = average_multiplicity_with_error [[2]; []; [3; 5]]%Z.
Proof.
  apply (proj1 statistics_depend_on_flattened_sequence
           [[2; 3]; [5]]%Z [[2]; []; [3; 5]]%Z).
  reflexivity.
Defined.

(** C10, as the spec words it, fails: float64 addition is not associative,
    so the order of the values shows in the last bits of the SEM.  Swapping
    the two sublists of [[2,3],[5]], or reordering the values of [[2,3,5]]
    to [[5,2,3]], changes the SEM from 0.88191710368819687 to
    0.88191710368819698. *)
Lemma reordering_changes_the_sem :
  average_multiplicity_with_error [[2; 3]; [5]]%Z
  <> average_multiplicity_with_error [[5]; [2; 3]]%Z
  /\ average_multiplicity_with_error [[2; 3; 5]]%Z
     <> average_multiplicity_with_error [[5; 2; 3]]%Z
  /\ snd (average_multiplicity_with_error [[2; 3]; [5]]%Z)
     = NpFloat 0.88191710368819687
  /\ snd (average_multiplicity_with_error [[5]; [2; 3]]%Z)
     = NpFloat 0.88191710368819698.
Proof.
  assert (Hdiff : forall a b : number * number,
            match snd a with
            | NpFloat x => PrimFloat.eqb x 0.88191710368819687
            | PyInt _ => false
            end = true ->
            match snd b with
            | NpFloat x => PrimFloat.eqb x 0.88191710368819687
            | PyInt _ => false
            end = false ->
            a <> b).
  { intros a b Ha Hb Hab. subst b. congruence. }
  split; [|split; [|split]].
  - apply Hdiff; vm_compute; reflexivity.
  - apply Hdiff; vm_compute; reflexivity.
  - vm_compute. reflexivity.
  - vm_compute. reflexivity.
Qed.

(** * Further properties of the script *)

(** ** The batch: [process_images_in_folder] *)

Lemma comprehension_ok {A B : Type} (f : A -> result B) (l : list A) :
  (forall a, In a l -> exists b, f a = Ok b) ->
  exists bs, comprehension f l = Ok bs
             /\ Forall2 (fun a b => f a = Ok b) l bs.
Proof.
  induction l as [|a l IH]; intros Hall; simpl.
  - exists []. split; auto.
  - destruct (Hall a (or_introl eq_refl)) as [b Hb].
    destruct IH as (bs & Hbs & Hall2).
    { intros a' Ha'. apply Hall. now right. }
    exists (b :: bs). rewrite Hb, Hbs. simpl. split; auto.
Qed.

Lemma comprehension_raise {A B : Type} (f : A -> result B)
  (pre : list A) (a : A) (post : list A) (e : exception) :
  (forall q, In q pre -> exists b, f q = Ok b) ->
  f a = Raise e ->
  comprehension f (pre ++ a :: post) = Raise e.
Proof.
  induction pre as [|q pre IH]; intros Hpre Ha; simpl.
  - rewrite Ha. reflexivity.
  - destruct (Hpre q (or_introl eq_refl)) as [b Hb]. rewrite Hb. simpl.
    rewrite IH; auto. intros q' Hq'. apply Hpre. now right.
Qed.

Lemma process_every_image
  (imread : string -> result (ndarray Z)) (glob : string -> list string)
  (folder_path : string) (t : Z) :
  glob (os_path_join folder_path "*.tiff") <> [] ->
  (forall path, In path (glob (os_path_join folder_path "*.tiff")) ->
     exists image, imread path = Ok image /\ ndim image = 2
                   /\ size image <> 0) ->
  exists all_multiplicities,
    process_images_in_folder imread glob folder_path t
    = ([], Ok all_multiplicities)
    /\ Forall2 (fun path counts => count_multiplicity imread path t = Ok counts)
         (glob (os_path_join folder_path "*.tiff")) all_multiplicities.
Proof.
  intros Hne Hall. unfold process_images_in_folder.
  rewrite (truthy_nonempty _ Hne). simpl.
  destruct (comprehension_ok (fun p => count_multiplicity imread p t)
              (glob (os_path_join folder_path "*.tiff"))) as (bs & Hbs & H2).
  - intros path Hin.
    destruct (Hall path Hin) as (image & Hread & Hdim & Hsize).
    destruct (ndim_2 image Hdim) as (h & w & Hshape).
    rewrite (size_2d image h w Hshape) in Hsize.
    eexists. eapply count_multiplicity_2d; eauto.
  - exists bs. rewrite Hbs. auto.
Qed.

(** X1.  When the folder holds matching files and each of them reads as a 2D
    image that has at least one cell, the call prints nothing and returns one multiplicity list per
    file, in the order [glob] listed the files. *)
Theorem batch_lists_every_image
  (imread : string -> result (ndarray Z)) (glob : string -> list string)
  (folder_path : string) (t : Z) :
  glob (os_path_join folder_path "*.tiff") <> [] ->
  (forall path, In path (glob (os_path_join folder_path "*.tiff")) ->
     exists image, imread path = Ok image /\ ndim image = 2
                   /\ size image <> 0) ->
  exists all_multiplicities,
    process_images_in_folder imread glob folder_path t
    = ([], Ok all_multiplicities)
    /\ Forall2 (fun path counts => count_multiplicity imread path t = Ok counts)
         (glob (os_path_join folder_path "*.tiff")) all_multiplicities.
Proof.
  apply process_every_image.
Qed.

Lemma batch_lists_every_image_witness :
  exists all_multiplicities,
    process_images_in_folder (always corner_image) two_paths "run" 1
    = ([], Ok all_multiplicities)
    /\ Forall2 (fun path counts =>
                  count_multiplicity (always corner_image) path 1 = Ok counts)
         (two_paths (os_path_join "run" "*.tiff")) all_multiplicities.
Proof.
  apply (batch_lists_every_image (always corner_image) two_paths "run" 1%Z).
  - simpl. discriminate.
  - intros path _. exists corner_image.
    split; [reflexivity|]. split; [reflexivity|]. vm_compute. discriminate.
Defined.

(** X2.  The batch is fail-fast: the first file whose processing raises, because
    it cannot be read or because it is not a 2D image, aborts the whole
    call with that exception.  The lists of the files before it are lost,
    the files after it are not looked at, and nothing is printed. *)
Theorem batch_stops_at_first_failure
  (imread : string -> result (ndarray Z)) (glob : string -> list string)
  (folder_path : string) (t : Z)
  (before : list string) (path : string) (after : list string)
  (e : exception) :
  glob (os_path_join folder_path "*.tiff") = before ++ path :: after ->
  (forall q, In q before ->
     exists counts, count_multiplicity imread q t = Ok counts) ->
  count_multiplicity imread path t = Raise e ->
  process_images_in_folder imread glob folder_path t = ([], Raise e).
Proof.
  intros Hglob Hbefore Hfail. unfold process_images_in_folder.
  rewrite Hglob.
  replace (truthy (before ++ path :: after)) with true
    by (destruct before; reflexivity).
  simpl. f_equal. apply comprehension_raise; auto.
Qed.

Lemma batch_stops_at_first_failure_witness :
  process_images_in_folder three_files three_paths "run" 1
  = ([], Raise (ValueError
       "Expected a 2D grayscale image, but got shape (5, 100, 100)")).
Proof.
  apply (batch_stops_at_first_failure three_files three_paths "run" 1%Z
           ["run/a.tiff"] "run/b.tiff" ["run/c.tiff"]).
  - reflexivity.
  - intros q [<-|[]]. eexists. reflexivity.
  - reflexivity.
Defined.

(** ** The entry point *)

Section EntryPointProperties.

Variable imread : string -> result (ndarray Z).
Variable glob : string -> list string.
Variable typed : string.
Variable repr_list : list Z -> string.
Variable str_number : number -> string.
Variable py_round : number -> Z -> number.

(** X3.  On a folder without matching files the run prints the prompt, the
    notice and "No images processed.", computes no statistics and ends
    normally. *)
Theorem main_on_empty_folder :
  glob (os_path_join typed "*.tiff") = [] ->
  main imread glob typed repr_list str_number py_round
  = ([Prompt "Enter the folder path containing TIFF images: ";
      Line ("No TIFF files found in folder: " ++ typed)%string;
      Line "No images processed."],
     Ok tt).
Proof.
  intros Hglob. unfold main, process_images_in_folder. rewrite Hglob.
  reflexivity.
Qed.

(** X4.  When the batch raises, the run ends with that exception and the console
    shows the prompt only: no image is reported, not even those processed
    before the failing one. *)
Theorem main_prints_nothing_on_failure (e : exception) :
  snd (process_images_in_folder imread glob typed 1) = Raise e ->
  main imread glob typed repr_list str_number py_round
  = ([Prompt "Enter the folder path containing TIFF images: "], Raise e).
Proof.
  unfold main, process_images_in_folder.
  destruct (truthy (glob (os_path_join typed "*.tiff"))); simpl.
  - intros ->. reflexivity.
  - discriminate.
Qed.

Lemma report_length (start : nat) (all : list (list Z)) :
  List.length
    (flat_map (fun im => image_report repr_list str_number (fst im) (snd im))
       (enumerate start all))
  = 4 * List.length all.
Proof.
  revert start; induction all as [|m all IH]; intros start; simpl; auto.
  rewrite IH. lia.
Qed.

Lemma report_header (start i : nat) (all : list (list Z))
  (rest : list console) (d : console) :
  i < List.length all ->
  nth (4 * i)
      (map Line
         (flat_map (fun im => image_report repr_list str_number (fst im) (snd im))
            (enumerate start all)) ++ rest) d
  = Line ("Image " ++ str_nat (start + i + 1) ++ ":")%string.
Proof.
  revert start i; induction all as [|m all IH]; intros start i Hi;
    simpl in Hi; [lia|].
  destruct i as [|i].
  - simpl. rewrite Nat.add_0_r. reflexivity.
  - replace (4 * S i) with (S (S (S (S (4 * i))))) by lia.
    cbn [enumerate flat_map image_report fst snd app map nth].
    rewrite IH by lia.
    replace (S start + i + 1) with (start + S i + 1) by lia. reflexivity.
Qed.

(** X5.  When every matching file reads as a 2D image that has at least one
    cell, the run ends normally.
    After the prompt it prints four lines per file and two summary lines;
    the block of the [i]-th file, in [glob]'s order, opens with
    "Image i:", counted from 1. *)
Theorem main_reports_every_image :
  glob (os_path_join typed "*.tiff") <> [] ->
  (forall path, In path (glob (os_path_join typed "*.tiff")) ->
     exists image, imread path = Ok image /\ ndim image = 2
                   /\ size image <> 0) ->
  exists report,
    main imread glob typed repr_list str_number py_round
    = (Prompt "Enter the folder path containing TIFF images: " :: report,
       Ok tt)
    /\ List.length report
       = 4 * List.length (glob (os_path_join typed "*.tiff")) + 2
    /\ forall i, i < List.length (glob (os_path_join typed "*.tiff")) ->
         nth (4 * i) report (Line "")
         = Line ("Image " ++ str_nat (i + 1) ++ ":")%string.
Proof.
  intros Hne Hall.
  destruct (process_every_image imread glob typed 1%Z Hne Hall)
    as (all & Hrun & Hall2).
  assert (Hlen : List.length all
                 = List.length (glob (os_path_join typed "*.tiff"))).
  { symmetry. eapply Forall2_length; eauto. }
  assert (Hall_ne : all <> []).
  { intros ->. simpl in Hlen.
    destruct (glob (os_path_join typed "*.tiff")); [congruence|discriminate]. }
  unfold main. rewrite Hrun. rewrite (truthy_nonempty _ Hall_ne).
  destruct (average_multiplicity_with_error all) as [avg sem].
  eexists. split; [reflexivity|]. split.
  - cbn [map app]. rewrite length_app, length_map, report_length.
    simpl. lia.
  - intros i Hi. cbn [map app]. rewrite report_header by lia.
    reflexivity.
Qed.

End EntryPointProperties.

Lemma main_on_empty_folder_witness :
  main (always corner_image) no_files "data/run1"
       (fun _ => "") (fun _ => "") (fun x _ => x)
  = ([Prompt "Enter the folder path containing TIFF images: ";
      Line "No TIFF files found in folder: data/run1";
      Line "No images processed."],
     Ok tt).
Proof.
  apply (main_on_empty_folder (always corner_image) no_files "data/run1").
  reflexivity.
Defined.

Lemma main_prints_nothing_on_failure_witness :
  main three_files three_paths "run"
       (fun _ => "") (fun _ => "") (fun x _ => x)
  = ([Prompt "Enter the folder path containing TIFF images: "],
     Raise (ValueError
       "Expected a 2D grayscale image, but got shape (5, 100, 100)")).
Proof.
  apply (main_prints_nothing_on_failure three_files three_paths "run").
  reflexivity.
Defined.

Lemma main_reports_every_image_witness :
  exists report,
    main (always corner_image) two_paths "run"
         (fun _ => "") (fun _ => "") (fun x _ => x)
    = (Prompt "Enter the folder path containing TIFF images: " :: report,
       Ok tt)
    /\ List.length report
       = 4 * List.length (two_paths (os_path_join "run" "*.tiff")) + 2
    /\ forall i, i < List.length (two_paths (os_path_join "run" "*.tiff")) ->
         nth (4 * i) report (Line "")
         = Line ("Image " ++ str_nat (i + 1) ++ ":")%string.
Proof.
  apply (main_reports_every_image (always corner_image) two_paths "run").
  - simpl. discriminate.
  - intros path _. exists corner_image.
    split; [reflexivity|]. split; [reflexivity|]. vm_compute. discriminate.
Defined.

(** ** The whole pipeline on images without foreground *)

Lemma count_multiplicity_background
  (imread : string -> result (ndarray Z)) (path : string)
  (image : ndarray Z) (t : Z) :
  imread path = Ok image -> ndim image = 2 -> size image <> 0 ->
  (forall v, In v (data image) -> (v < t)%Z) ->
  count_multiplicity imread path t = Ok [].
Proof.
  intros Hread Hdim Hsize Hlt.
  destruct (ndim_2 image Hdim) as (h & w & Hshape).
  rewrite (size_2d image h w Hshape) in Hsize.
  rewrite (count_multiplicity_2d imread path image t h w) by auto.
  unfold label_2d. rewrite scan_background by (apply mask_all_false; auto).
  unfold regions. cbn [data snd]. rewrite list_max_repeat_0. reflexivity.
Qed.

Lemma concat_of_empty_lists (paths : list string) (all : list (list Z))
  (f : string -> result (list Z)) :
  Forall2 (fun path counts => f path = Ok counts) paths all ->
  (forall path, In path paths -> f path = Ok []) ->
  List.concat all = [].
Proof.
  induction 1 as [|path counts paths all Hhead _ IH]; intros Hempty; auto.
  simpl. rewrite (Hempty path (or_introl eq_refl)) in Hhead.
  injection Hhead as <-. simpl. apply IH.
  intros p Hp. apply Hempty. now right.
Qed.

(** X9.  A folder whose images are all 2D, have at least one cell and lie
    below the threshold everywhere is processed without error, and the statistics of its result are the pair
    (0, 0), however many images there are. *)
Theorem background_folder_statistics
  (imread : string -> result (ndarray Z)) (glob : string -> list string)
  (folder_path : string) (t : Z) :
  (forall path, In path (glob (os_path_join folder_path "*.tiff")) ->
     exists image, imread path = Ok image /\ ndim image = 2
                   /\ size image <> 0
                   /\ forall v, In v (data image) -> (v < t)%Z) ->
  exists printed all_multiplicities,
    process_images_in_folder imread glob folder_path t
    = (printed, Ok all_multiplicities)
    /\ List.length all_multiplicities
       = List.length (glob (os_path_join folder_path "*.tiff"))
    /\ average_multiplicity_with_error all_multiplicities
       = (PyInt 0, PyInt 0).
Proof.
  intros Hall.
  destruct (glob (os_path_join folder_path "*.tiff")) as [|p0 ps] eqn:Hglob.
  - exists ["No TIFF files found in folder: " ++ folder_path]%string, [].
    unfold process_images_in_folder. rewrite Hglob. auto.
  - destruct (process_every_image imread glob folder_path t)
      as (all & Hrun & Hall2).
    + rewrite Hglob. discriminate.
    + rewrite Hglob. intros path Hin.
      destruct (Hall path Hin) as (image & Hread & Hdim & Hsize & _). eauto.
    + rewrite Hglob in Hall2. exists [], all. split; [exact Hrun|]. split.
      * symmetry. eapply Forall2_length; eauto.
      * unfold average_multiplicity_with_error. rewrite flatten_concat.
        rewrite (concat_of_empty_lists _ _ _ Hall2); [reflexivity|].
        intros path Hin.
        destruct (Hall path Hin) as (image & Hread & Hdim & Hsize & Hlt).
        eapply count_multiplicity_background; eauto.
Qed.

Lemma background_folder_statistics_witness :
  exists printed all_multiplicities,
    process_images_in_folder (always corner_image) two_paths "run" 2
    = (printed, Ok all_multiplicities)
    /\ List.length all_multiplicities
       = List.length (two_paths (os_path_join "run" "*.tiff"))
    /\ average_multiplicity_with_error all_multiplicities
       = (PyInt 0, PyInt 0).
Proof.
  apply (background_folder_statistics (always corner_image) two_paths "run" 2%Z).
  intros path _. exists corner_image.
  split; [reflexivity|]. split; [reflexivity|].
  split; [vm_compute; discriminate|].
  simpl. intros v Hv. decompose [or] Hv; subst; lia.
Defined.

(** ** More on [count_multiplicity] *)

Lemma foreground_count_le (image : ndarray Z) (t : Z) :
  foreground_count image t <= List.length (data image).
Proof.
  unfold foreground_count. apply filter_length_le.
Qed.

Lemma foreground_count_antitone (image : ndarray Z) (t t' : Z) :
  (t <= t')%Z -> foreground_count image t' <= foreground_count image t.
Proof.
  intros Ht. unfold foreground_count.
  induction (data image) as [|v l IH]; simpl; auto.
  destruct (t' <=? v)%Z eqn:E'.
  - apply Z.leb_le in E'.
    replace (t <=? v)%Z with true by (symmetry; apply Z.leb_le; lia).
    simpl. lia.
  - destruct (t <=? v)%Z; simpl; lia.
Qed.

(** X10.  Raising the threshold never adds foreground: for a 2D image that
    has at least one cell, the multiplicities at the higher threshold sum to
    at most the sum at the lower threshold. *)
Theorem higher_threshold_counts_less
  (imread : string -> result (ndarray Z)) (path : string)
  (image : ndarray Z) (t t' : Z) :
  imread path = Ok image -> ndim image = 2 -> well_formed image ->
  size image <> 0 -> (t <= t')%Z ->
  exists counts counts',
    count_multiplicity imread path t = Ok counts
    /\ count_multiplicity imread path t' = Ok counts'
    /\ (sum_Z counts' <= sum_Z counts)%Z.
Proof.
  intros Hread Hdim Hwf Hsize Ht.
  destruct (ndim_2 image Hdim) as (h & w & Hshape).
  rewrite (size_2d image h w Hshape) in Hsize.
  do 2 eexists. split; [eapply count_multiplicity_2d; eauto|].
  split; [eapply count_multiplicity_2d; eauto|].
  rewrite !regions_sum. cbn [data].
  rewrite !labelled_count by auto.
  apply inj_le. apply foreground_count_antitone. exact Ht.
Qed.

Lemma higher_threshold_counts_less_witness :
  exists counts counts',
    count_multiplicity (always full_image) "a.tiff" 2 = Ok counts
    /\ count_multiplicity (always full_image) "a.tiff" 5 = Ok counts'
    /\ (sum_Z counts' <= sum_Z counts)%Z.
Proof.
  apply (higher_threshold_counts_less (always full_image) "a.tiff"
           full_image 2%Z 5%Z); try reflexivity; [vm_compute; discriminate | lia].
Defined.

Lemma regions_area_bound (label_image : ndarray nat) :
  Forall (fun a => (a <= Z.of_nat (List.length (data label_image)))%Z)
         (map area (regions label_image)).
Proof.
  unfold regions.
  induction (seq 1 (list_max (data label_image))) as [|k ks IH]; simpl; auto.
  destruct (pixels_with label_image k =? 0); simpl; auto.
  constructor; auto. apply inj_le. apply count_occ_bound.
Qed.

(** X11.  In an image that has at least one cell, no region is larger than
    the image, and all regions together hold at most as many pixels as the
    image has. *)
Theorem multiplicities_bounded_by_image_size
  (imread : string -> result (ndarray Z)) (path : string)
  (image : ndarray Z) (t : Z) (h w : nat) :
  imread path = Ok image -> shape image = [h; w] -> well_formed image ->
  size image <> 0 ->
  exists counts,
    count_multiplicity imread path t = Ok counts
    /\ Forall (fun m => (m <= Z.of_nat (h * w))%Z) counts
    /\ (sum_Z counts <= Z.of_nat (h * w))%Z.
Proof.
  intros Hread Hshape Hwf Hsize.
  rewrite (size_2d image h w Hshape) in Hsize.
  pose proof (shape_2d_length image h w Hshape Hwf) as Hlen.
  eexists. split; [eapply count_multiplicity_2d; eauto|]. split.
  - pose proof (regions_area_bound
      (mk_ndarray [h; w] (label_2d h w 2 (data (ge_scalar image t))))) as Hb.
    cbn [data] in Hb.
    rewrite label_2d_length in Hb by (simpl; rewrite length_map; exact Hlen).
    exact Hb.
  - rewrite regions_sum. cbn [data]. rewrite labelled_count by auto.
    apply inj_le. rewrite <- Hlen. apply foreground_count_le.
Qed.

Lemma multiplicities_bounded_by_image_size_witness :
  exists counts,
    count_multiplicity (always corner_image) "a.tiff" 1 = Ok counts
    /\ Forall (fun m => (m <= Z.of_nat (3 * 3))%Z) counts
    /\ (sum_Z counts <= Z.of_nat (3 * 3))%Z.
Proof.
  apply (multiplicities_bounded_by_image_size (always corner_image) "a.tiff"
           corner_image 1%Z 3 3); try reflexivity.
  vm_compute. discriminate.
Defined.

Lemma adjacent_2_close (p q : pixel) :
  adjacent 2 p q ->
  (Z.abs (fst p - fst q) <= 1)%Z /\ (Z.abs (snd p - snd q) <= 1)%Z
  /\ p <> q.
Proof.
  unfold adjacent, neighbours. destruct p as [r c]. simpl.
  intros H. decompose [or] H; subst; simpl; try contradiction;
    (split; [lia | split; [lia | intros E; injection E; lia]]).
Qed.

Lemma foreground_intensity (image : ndarray Z) (t : Z) (h w : nat) (p : pixel) :
  shape image = [h; w] -> well_formed image -> in_bounds h w p = true ->
  nth (offset w p) (data (ge_scalar image t)) false = true
  <-> (t <= nth (offset w p) (data image) 0)%Z.
Proof.
  intros Hshape Hwf Hp.
  rewrite nth_ge_scalar; [apply Z.leb_le|].
  rewrite (shape_2d_length image h w Hshape Hwf). apply offset_lt. exact Hp.
Qed.

Lemma connected_from_origin (h w : nat) (mask : list bool) :
  (forall p, in_bounds h w p = true -> nth (offset w p) mask false = true) ->
  forall n p, in_bounds h w p = true ->
    Z.to_nat (fst p) + Z.to_nat (snd p) = n ->
    connected h w 2 mask (0, 0)%Z p.
Proof.
  intros Hfull. induction n as [|n IH]; intros [r c] Hp Hn;
    pose proof Hp as Hb; apply in_bounds_spec in Hb; simpl in *.
  - assert (r = 0%Z) by lia. assert (c = 0%Z) by lia. subst.
    constructor. split; auto.
  - destruct (Z_lt_le_dec 0 r) as [Hr|Hr].
    + apply connected_next with (q := (r - 1, c)%Z).
      * apply IH; [apply in_bounds_spec; simpl; lia | simpl; lia].
      * split; auto.
      * apply adjacent_8; simpl; try lia. intros E. injection E. lia.
    + apply connected_next with (q := (r, c - 1)%Z).
      * apply IH; [apply in_bounds_spec; simpl; lia | simpl; lia].
      * split; auto.
      * apply adjacent_8; simpl; try lia. intros E. injection E. lia.
Qed.

Lemma list_max_repeat (k n : nat) : 0 < n -> list_max (repeat k n) = k.
Proof.
  induction n as [|n IH]; [lia|]. intros _. simpl.
  destruct n; simpl in *; [lia|]. rewrite IH by lia. lia.
Qed.

Lemma flat_map_nil {A B : Type} (f : A -> list B) (l : list A) :
  (forall a, In a l -> f a = []) -> flat_map f l = [].
Proof.
  induction l as [|a l IH]; intros Hf; simpl; auto.
  rewrite (Hf a (or_introl eq_refl)), IH; auto.
  intros a' Ha'. apply Hf. now right.
Qed.

Lemma regions_uniform (s : list nat) (k n : nat) :
  k <> 0 -> 0 < n ->
  map area (regions (mk_ndarray s (repeat k n))) = [Z.of_nat n].
Proof.
  intros Hk Hn. unfold regions, pixels_with. cbn [data].
  rewrite list_max_repeat by auto.
  destruct k as [|k]; [congruence|].
  rewrite seq_S, flat_map_app, map_app. cbn [flat_map].
  rewrite count_occ_repeat_eq by reflexivity.
  replace (n =? 0) with false by (symmetry; apply Nat.eqb_neq; lia).
  rewrite flat_map_nil; [reflexivity|].
  intros j Hj. apply in_seq in Hj.
  rewrite count_occ_repeat_neq by lia. reflexivity.
Qed.

(** X12.  An image without background is a single region: when every pixel of a
    non-empty 2D image reaches the threshold, the result is the one-element
    list holding the number of pixels. *)
Theorem full_foreground_is_one_region
  (imread : string -> result (ndarray Z)) (path : string)
  (image : ndarray Z) (t : Z) (h w : nat) :
  imread path = Ok image -> shape image = [h; w] -> well_formed image ->
  0 < h * w ->
  (forall v, In v (data image) -> (t <= v)%Z) ->
  count_multiplicity imread path t = Ok [Z.of_nat (h * w)].
Proof.
  intros Hread Hshape Hwf Hpos Hall.
  pose proof (shape_2d_length image h w Hshape Hwf) as Hlen.
  rewrite (count_multiplicity_2d imread path image t h w) by (auto; lia).
  set (mask := data (ge_scalar image t)).
  assert (Hmask : List.length mask = h * w).
  { unfold mask. simpl. rewrite length_map. exact Hlen. }
  assert (Hfull : forall p, in_bounds h w p = true ->
            nth (offset w p) mask false = true).
  { intros p Hp. apply (foreground_intensity image t h w p); auto.
    apply Hall. apply nth_In. rewrite Hlen. apply offset_lt. exact Hp. }
  set (origin := (0, 0)%Z).
  assert (Horigin : in_bounds h w origin = true).
  { apply in_bounds_spec. simpl. nia. }
  set (k := label_at w (label_2d h w 2 mask) origin).
  assert (Hk : k <> 0).
  { apply label_2d_nonzero; auto. }
  assert (Hsame : label_2d h w 2 mask = repeat k (h * w)).
  { apply nth_ext with (d := 0) (d' := k).
    - rewrite label_2d_length, repeat_length. reflexivity.
    - intros i Hi. rewrite label_2d_length in Hi. rewrite nth_repeat.
      assert (Hw : 0 < w) by nia.
      rewrite <- (offset_pixel_at w i Hw).
      pose proof (pixel_at_in_bounds h w i Hi) as Hp.
      destruct (proj2 (label_2d_regions h w 2 mask Hmask origin
                         (pixel_at w i) Horigin Hp)) as [_ He].
      + eapply connected_from_origin; eauto.
      + symmetry. exact He. }
  rewrite Hsame. f_equal. apply regions_uniform; auto.
Qed.

Lemma full_foreground_is_one_region_witness :
  count_multiplicity (always full_image) "a.tiff" 1 = Ok [Z.of_nat (2 * 3)].
Proof.
  apply (full_foreground_is_one_region (always full_image) "a.tiff"
           full_image 1%Z 2 3); try reflexivity.
  - lia.
  - simpl. intros v Hv. decompose [or] Hv; subst; lia.
Defined.

Lemma connected_isolated (h w : nat) (mask : list bool) (p q : pixel) :
  (forall a b, is_foreground h w mask a -> is_foreground h w mask b ->
     adjacent 2 a b -> a = b) ->
  connected h w 2 mask p q -> p = q.
Proof.
  intros Hiso. induction 1 as [|q r Hpq IH Hr Hqr]; auto.
  subst q. apply Hiso; auto. apply (connected_foreground _ _ _ _ _ _ Hpq).
Qed.

Lemma count_occ_le_1 (l : list nat) (k : nat) :
  (forall i j, i < List.length l -> j < List.length l ->
     nth i l 0 = k -> nth j l 0 = k -> i = j) ->
  count_occ Nat.eq_dec l k <= 1.
Proof.
  induction l as [|x l IH]; intros Huniq; simpl; auto.
  destruct (Nat.eq_dec x k) as [->|Hne].
  - assert (Hnot : ~ In k l).
    { intros Hin. destruct (In_nth l k 0 Hin) as (j & Hj & Hnth).
      specialize (Huniq 0 (S j)). simpl in Huniq.
      assert (0 = S j) by (apply Huniq; auto; lia). discriminate. }
    apply (count_occ_not_In Nat.eq_dec) in Hnot. lia.
  - apply IH. intros i j Hi Hj Hni Hnj.
    specialize (Huniq (S i) (S j)). simpl in Huniq.
    assert (S i = S j) by (apply Huniq; auto; lia). lia.
Qed.

Lemma regions_ones (label_image : ndarray nat) :
  (forall k, k <> 0 -> pixels_with label_image k <= 1) ->
  Forall (eq 1%Z) (map area (regions label_image)).
Proof.
  intros Hone. unfold regions.
  assert (Hks : forall k, In k (seq 1 (list_max (data label_image))) -> k <> 0).
  { intros k Hk. apply in_seq in Hk. lia. }
  induction (seq 1 (list_max (data label_image))) as [|k ks IH]; simpl; auto.
  assert (Htail : Forall (eq 1%Z)
            (map area
               (flat_map
                  (fun k0 => if pixels_with label_image k0 =? 0 then []
                             else [mk_region k0
                                     (Z.of_nat (pixels_with label_image k0))])
                  ks))).
  { apply IH. intros k' Hk'. apply Hks. now right. }
  destruct (pixels_with label_image k =? 0) eqn:E; simpl; auto.
  apply Nat.eqb_neq in E. constructor; auto.
  specialize (Hone k (Hks k (or_introl eq_refl))). simpl. lia.
Qed.

Lemma sum_of_ones (counts : list Z) :
  Forall (eq 1%Z) counts -> sum_Z counts = Z.of_nat (List.length counts).
Proof.
  unfold sum_Z.
  induction 1 as [|m l <- _ IH]; cbn [fold_right List.length]; lia.
Qed.

(** X13.  Events that do not touch are counted one by one: when no two distinct
    foreground pixels of an image that has at least one cell are neighbours,
    at an edge or at a corner, every multiplicity is 1 and there are as many of them as foreground pixels. *)
Theorem isolated_pixels_have_multiplicity_one
  (imread : string -> result (ndarray Z)) (path : string)
  (image : ndarray Z) (t : Z) (h w : nat) :
  imread path = Ok image -> shape image = [h; w] -> well_formed image ->
  size image <> 0 -> isolated h w image t ->
  exists counts,
    count_multiplicity imread path t = Ok counts
    /\ Forall (eq 1%Z) counts
    /\ List.length counts = foreground_count image t.
Proof.
  intros Hread Hshape Hwf Hsize Hiso.
  rewrite (size_2d image h w Hshape) in Hsize.
  pose proof (shape_2d_length image h w Hshape Hwf) as Hlen.
  set (mask := data (ge_scalar image t)).
  assert (Hmask : List.length mask = h * w).
  { unfold mask. simpl. rewrite length_map. exact Hlen. }
  assert (Hiso' : forall a b, is_foreground h w mask a ->
            is_foreground h w mask b -> adjacent 2 a b -> a = b).
  { intros a b [Ha Fa] [Hb Fb] Hadj.
    apply adjacent_2_close in Hadj. destruct Hadj as (Hr & Hc & _).
    apply Hiso; auto.
    - apply (foreground_intensity image t h w a); auto.
    - apply (foreground_intensity image t h w b); auto. }
  assert (Hones : Forall (eq 1%Z)
            (map area (regions
               (mk_ndarray [h; w] (label_2d h w 2 mask))))).
  { apply regions_ones. intros k Hk. unfold pixels_with. cbn [data].
    apply count_occ_le_1. intros i j Hi Hj Hni Hnj.
    rewrite label_2d_length in Hi, Hj.
    assert (Hw : 0 < w) by nia.
    assert (Hpq : pixel_at w i = pixel_at w j).
    { apply (connected_isolated h w mask); auto.
      apply (label_2d_label_connected h w 2 mask Hmask);
        auto using pixel_at_in_bounds;
        unfold label_at; rewrite !offset_pixel_at by auto; congruence. }
    rewrite <- (offset_pixel_at w i Hw), <- (offset_pixel_at w j Hw).
    congruence. }
  eexists. split; [eapply count_multiplicity_2d; eauto|].
  fold mask. split; auto.
  apply Nat2Z.inj. rewrite <- (sum_of_ones _ Hones).
  rewrite regions_sum. cbn [data]. f_equal.
  apply labelled_count; auto.
Qed.

Lemma isolated_pixels_have_multiplicity_one_witness :
  exists counts,
    count_multiplicity (always sparse_image) "a.tiff" 1 = Ok counts
    /\ Forall (eq 1%Z) counts
    /\ List.length counts = foreground_count sparse_image 1.
Proof.
  apply (isolated_pixels_have_multiplicity_one (always sparse_image) "a.tiff"
           sparse_image 1%Z 3 4); try reflexivity.
  { vm_compute. discriminate. }
  intros [r c] [r' c'] Hp Hq Tp Tq Hr Hc.
  apply in_bounds_spec in Hp. apply in_bounds_spec in Hq.
  apply Z.leb_le in Tp. apply Z.leb_le in Tq. simpl in Hp, Hq, Hr, Hc.
  assert (Er : (r = 0 \/ r = 1 \/ r = 2)%Z) by lia.
  assert (Ec : (c = 0 \/ c = 1 \/ c = 2 \/ c = 3)%Z) by lia.
  assert (Er' : (r' = 0 \/ r' = 1 \/ r' = 2)%Z) by lia.
  assert (Ec' : (c' = 0 \/ c' = 1 \/ c' = 2 \/ c' = 3)%Z) by lia.
  decompose [or] Er; decompose [or] Ec; subst r c;
    vm_compute in Tp; try discriminate Tp;
    decompose [or] Er'; decompose [or] Ec'; subst r' c';
    vm_compute in Tq; try discriminate Tq;
    first [reflexivity | simpl in Hr, Hc; lia].
Defined.

Lemma ge_scalar_same_mask (image image' : ndarray Z) (t t' : Z) :
  shape image = shape image' ->
  Forall2 (fun v v' => (t <= v)%Z <-> (t' <= v')%Z) (data image) (data image') ->
  ge_scalar image t = ge_scalar image' t'.
Proof.
  intros Hshape Hdata. unfold ge_scalar. rewrite Hshape. f_equal.
  induction Hdata as [|v v' l l' Hv _ IH]; simpl; auto.
  rewrite IH. f_equal. rewrite !Z.geb_leb.
  destruct (t <=? v)%Z eqn:E, (t' <=? v')%Z eqn:E'; auto.
  - apply Z.leb_le in E. apply Z.leb_gt in E'. apply Hv in E. lia.
  - apply Z.leb_gt in E. apply Z.leb_le in E'. apply Hv in E'. lia.
Qed.

(** X14.  Only the comparison with the threshold matters: two images of the same
    shape whose pixels pass their thresholds at the same positions give the
    same outcome, whatever the intensities are otherwise.  Shifting the
    intensities and the threshold together, or reducing the image to 0 and
    1 and using threshold 1, changes nothing. *)
Theorem only_the_mask_matters
  (imread : string -> result (ndarray Z)) (path path' : string)
  (image image' : ndarray Z) (t t' : Z) :
  imread path = Ok image -> imread path' = Ok image' ->
  shape image = shape image' ->
  Forall2 (fun v v' => (t <= v)%Z <-> (t' <= v')%Z) (data image) (data image') ->
  count_multiplicity imread path t = count_multiplicity imread path' t'.
Proof.
  intros Hread Hread' Hshape Hdata. unfold count_multiplicity.
  rewrite Hread, Hread'. simpl. unfold ndim. rewrite Hshape.
  rewrite (ge_scalar_same_mask image image' t t' Hshape Hdata). reflexivity.
Qed.

Lemma only_the_mask_matters_witness :
  count_multiplicity
    (fun p => if String.eqb p "a.tiff" then Ok corner_image
              else Ok (mk_ndarray [3; 3] [9; 0; 1; 2; 40; 0; 3; 3; 0]%Z))
    "a.tiff" 1
  = count_multiplicity
      (fun p => if String.eqb p "a.tiff" then Ok corner_image
                else Ok (mk_ndarray [3; 3] [9; 0; 1; 2; 40; 0; 3; 3; 0]%Z))
      "b.tiff" 5.
Proof.
  apply (only_the_mask_matters _ "a.tiff" "b.tiff" corner_image
           (mk_ndarray [3; 3] [9; 0; 1; 2; 40; 0; 3; 3; 0]%Z) 1%Z 5%Z);
    try reflexivity.
  simpl. repeat constructor; lia.
Defined.

(** ** The search pattern *)

Lemma get_after (d : string) (c : ascii) (rest : string) :
  String.get (String.length d) (d ++ String c rest)%string = Some c.
Proof.
  induction d as [|a d IH]; simpl; auto.
Qed.

Lemma length_snoc (d : string) (c : ascii) :
  String.length (d ++ String c EmptyString)%string = S (String.length d).
Proof.
  induction d as [|a d IH]; simpl; auto.
Qed.

Lemma append_assoc (a b c : string) :
  ((a ++ b) ++ c = a ++ (b ++ c))%string.
Proof.
  induction a as [|x a IH]; simpl; congruence.
Qed.

Lemma append_nonempty (d : string) (c : ascii) :
  String.eqb (d ++ String c EmptyString)%string "" = false.
Proof.
  destruct d; reflexivity.
Qed.

(** X15.  A trailing slash on the folder path does not change which files are
    searched: [dir/] and [dir] give the same pattern, hence the same lists
    or the same exception (the notice alone repeats the path as typed). *)
Theorem trailing_slash_is_ignored
  (imread : string -> result (ndarray Z)) (glob : string -> list string)
  (folder_path : string) (t : Z) :
  folder_path <> "" -> last_char folder_path <> Some "/"%char ->
  os_path_join (folder_path ++ "/") "*.tiff"
  = os_path_join folder_path "*.tiff"
  /\ snd (process_images_in_folder imread glob (folder_path ++ "/") t)
     = snd (process_images_in_folder imread glob folder_path t).
Proof.
  intros Hne Hlast.
  assert (Hjoin : os_path_join (folder_path ++ "/") "*.tiff"
                  = os_path_join folder_path "*.tiff").
  { unfold os_path_join. simpl String.prefix. cbv iota.
    rewrite append_nonempty. unfold last_char at 1.
    rewrite length_snoc. simpl Nat.sub. rewrite Nat.sub_0_r, get_after.
    simpl orb. cbv iota.
    replace (String.eqb folder_path "") with false
      by (symmetry; apply String.eqb_neq; exact Hne).
    destruct (last_char folder_path) as [c|] eqn:E.
    - destruct (Ascii.eqb c "/") eqn:Ec.
      + apply Ascii.eqb_eq in Ec. subst c. congruence.
      + simpl. apply append_assoc.
    - simpl. apply append_assoc. }
  split; auto.
  unfold process_images_in_folder. rewrite Hjoin.
  destruct (truthy (glob (os_path_join folder_path "*.tiff"))); reflexivity.
Qed.

Lemma trailing_slash_is_ignored_witness :
  os_path_join ("data/run1" ++ "/") "*.tiff" = os_path_join "data/run1" "*.tiff"
  /\ snd (process_images_in_folder three_files three_paths ("data/run1" ++ "/") 1)
     = snd (process_images_in_folder three_files three_paths "data/run1" 1).
Proof.
  apply (trailing_slash_is_ignored three_files three_paths "data/run1" 1%Z).
  - discriminate.
  - vm_compute. discriminate.
Defined.
